(** * MaidSafe-CRUX: the connection engine of [maidsafe/crux/socket.hpp]

    A shallow embedding of [class socket]: the connection record, the
    sequence filter, the public asynchronous operations, the protocol
    entry points the multiplexer calls, and the completion lambdas the
    socket hands to its collaborators.

    The collaborators themselves (multiplexer, transmit queue, io_service,
    resolver) live in other headers.  Every call the socket makes on one of
    them is recorded, in program order, as an [event]; the lambdas passed
    along are defunctionalised into first-order handler values whose bodies
    are the [invoke_*] and [run_*] functions below.  Writes to [std::cout]
    are left out. *)

From Stdlib Require Import String Strings.Byte ZArith List Bool Lia.
Import ListNotations.
Local Open Scope Z_scope.

(** ** Plain data *)

(** A completion token supplied from outside the socket (the application, the
    transmit queue, the acceptor): an opaque callable, identified by a number. *)
Definition token := nat.

(** The [boost::asio::error] values the socket produces itself, and any other
    error the substrate may report. *)
Inductive errc : Type :=
| invalid_argument
| already_connected
| already_started
| not_connected
| substrate_error (code : Z).

(** [boost::system::error_code]; [no_error] is the default-constructed value,
    the only one that converts to [false]. *)
Inductive error_code : Type :=
| no_error
| asio_error (e : errc).

Definition is_error (error : error_code) : bool :=
  match error with
  | no_error => false
  | asio_error _ => true
  end.

(** [boost::asio::ip::address]: an IPv4 or an IPv6 address, as its numeric value. *)
Inductive ip_address : Type :=
| address_v4 (a : Z)
| address_v6 (a : Z).

Definition is_v4 (a : ip_address) : bool :=
  match a with address_v4 _ => true | address_v6 _ => false end.

Definition is_v6 (a : ip_address) : bool :=
  match a with address_v4 _ => false | address_v6 _ => true end.

Definition is_unspecified (a : ip_address) : bool :=
  match a with address_v4 x => x =? 0 | address_v6 x => x =? 0 end.

(** [address_v4::loopback()] is 127.0.0.1 and [address_v6::loopback()] is ::1. *)
Definition loopback_v4 : ip_address := address_v4 0x7F000001.
Definition loopback_v6 : ip_address := address_v6 1.

Record endpoint_type : Type := mk_endpoint {
  address : ip_address;
  port : Z
}.

(** [remote_endpoint.address(a)]: the setter of the local copy. *)
Definition with_address (e : endpoint_type) (a : ip_address) : endpoint_type :=
  {| address := a; port := port e |}.

(** [detail::buffer], a byte vector, and a buffer sequence of the caller. *)
Definition buffer := list byte.
Definition buffer_sequence := list (list byte).

(** [boost::asio::buffer_size]. *)
Definition buffer_size (buffers : buffer_sequence) : nat :=
  list_sum (map (@length byte) buffers).

(** [boost::asio::buffer_copy (target, source)]: fills the target buffers in
    order with as many source bytes as fit, and returns the number copied. *)
Fixpoint buffer_copy (target : buffer_sequence) (source : list byte)
  : buffer_sequence * nat :=
  match target with
  | [] => ([], 0%nat)
  | b :: rest =>
      let n := Nat.min (length b) (length source) in
      let (rest', m) := buffer_copy rest (skipn n source) in
      ((firstn n source ++ skipn n b) :: rest', (n + m)%nat)
  end.

(** Modelled from the spec: the enumeration [connectivity] of
    [detail/socket_base.hpp], which is not part of this source tree.  The
    five states are those named by the switch statements of socket.hpp. *)
Inductive connectivity : Type :=
| closed
| listening
| connecting
| handshaking
| established.

(** ** Callables

    Handlers of signature [void (error_code)].  Apart from tokens, each
    constructor is one lambda of socket.hpp with its captures. *)
Inductive connect_handler_type : Type :=
| connect_token (t : token)
    (* the caller's completion token *)
| connect_sent (remote_endpoint : endpoint_type) (handler : connect_handler_type)
    (* async_connect: [this, remote_endpoint, handler] *)
| next_connect (where_ : list endpoint_type) (handler : connect_handler_type)
    (* async_next_connect: [this, where, resolver, handler] *)
| handshake_listening (remote_endpoint : endpoint_type) (initial : Z)
    (* process_handshake, listening: [this, remote_endpoint, initial] *)
| handshake_connecting (remote_endpoint : endpoint_type)
    (* process_handshake, connecting: [this, remote_endpoint] *)
| keepalive_ignored
    (* process_data: [] (error) {} *)
| iteration_done (handler : token).
    (* send_handshake's send_step: [this, handler], calls handler(error, 0) *)

(** Handlers of signature [void (error_code, std::size_t)] on the send path. *)
Inductive io_handler : Type :=
| send_done (handler : token)
    (* async_send: [handler], forwards to the caller's token *)
| handshake_acked (handler : connect_handler_type)
    (* send_handshake: [handler], drops the size *)
| data_sent (handler : token).
    (* send_data's send_step: [sequence, handler], forwards to the iteration handler *)

(** The [send_step] closures given to the transmit queue, which re-runs them
    on every retransmission. *)
Inductive send_step : Type :=
| handshake_step (remote_endpoint : endpoint_type) (sequence : Z) (ack : option Z)
| data_step (buffers : buffer_sequence) (remote_endpoint : endpoint_type) (sequence : Z).

(** [detail::receive_input_type]: a pending read of the application. *)
Record receive_input_type : Type := mk_input {
  input_buffers : buffer_sequence;
  input_handler : token
}.

(** [detail::receive_output_type]: a received payload nobody has read yet;
    the payload is a [shared_ptr], which may be null. *)
Record receive_output_type : Type := mk_output {
  output_error : error_code;
  output_data : option buffer
}.

(** Closures posted to the io_service. *)
Inductive task : Type :=
| fail_connect (handler : connect_handler_type) (error : errc)
    (* invoke_handler (handler, error) *)
| fail_io (handler : token) (error : errc) (size : nat)
    (* invoke_handler (handler, error, size) *)
| deliver_output (buffers : buffer_sequence) (handler : token).
    (* async_receive: [this, buffers, handler] *)

(** ** Calls on the collaborators, and completions that leave the socket *)
Inductive event : Type :=
| mux_add
| mux_start_receive
| mux_send_handshake (remote_endpoint : endpoint_type) (sequence : Z)
    (ack : option Z) (reserved : Z) (handler : connect_handler_type)
| mux_send_keepalive (remote_endpoint : endpoint_type) (sequence : Z)
    (ack : option Z) (reserved : Z) (handler : connect_handler_type)
| mux_send_data (buffers : buffer_sequence) (remote_endpoint : endpoint_type)
    (sequence : Z) (ack : option Z) (reserved : Z) (handler : io_handler)
| tq_push (sequence : Z) (size : nat) (timeout_ms : Z)
    (step : send_step) (completion : io_handler)
| tq_apply_ack (ack : Z)
| io_post (t : task)
| async_resolve (host service : string) (handler : connect_handler_type)
| user_buffers_filled (contents : buffer_sequence)
| connect_completed (t : token) (error : error_code)
| io_completed (t : token) (error : error_code) (size : nat)
| iteration_completed (t : token) (error : error_code) (size : nat).

(** ** The connection

    The members of [socket], with [state] and [remote] inherited from
    [detail::socket_base].  [multiplexer] is a [shared_ptr]: [None] is the
    null pointer of an unbound socket.  [connect_handler] is only ever
    installed from outside this header, so it holds a token.  The
    [transmit_queue] member is driven through [tq_push] and [tq_apply_ack]. *)
Record socket : Type := mk_socket {
  multiplexer : option nat;
  state : connectivity;
  remote : endpoint_type;
  receive_input_queue : list receive_input_type;
  receive_output_queue : list receive_output_type;
  connect_handler : option token;
  next_sequence : Z;
  last_remote_sequence : option Z
}.

Definition set_multiplexer (value : option nat) (s : socket) : socket :=
  mk_socket value (state s) (remote s) (receive_input_queue s)
    (receive_output_queue s) (connect_handler s) (next_sequence s)
    (last_remote_sequence s).

Definition set_state (c : connectivity) (s : socket) : socket :=
  mk_socket (multiplexer s) c (remote s) (receive_input_queue s)
    (receive_output_queue s) (connect_handler s) (next_sequence s)
    (last_remote_sequence s).

Definition set_remote (e : endpoint_type) (s : socket) : socket :=
  mk_socket (multiplexer s) (state s) e (receive_input_queue s)
    (receive_output_queue s) (connect_handler s) (next_sequence s)
    (last_remote_sequence s).

Definition set_receive_input_queue (q : list receive_input_type) (s : socket) : socket :=
  mk_socket (multiplexer s) (state s) (remote s) q
    (receive_output_queue s) (connect_handler s) (next_sequence s)
    (last_remote_sequence s).

Definition set_receive_output_queue (q : list receive_output_type) (s : socket) : socket :=
  mk_socket (multiplexer s) (state s) (remote s) (receive_input_queue s)
    q (connect_handler s) (next_sequence s) (last_remote_sequence s).

Definition set_connect_handler (h : option token) (s : socket) : socket :=
  mk_socket (multiplexer s) (state s) (remote s) (receive_input_queue s)
    (receive_output_queue s) h (next_sequence s) (last_remote_sequence s).

Definition set_next_sequence (n : Z) (s : socket) : socket :=
  mk_socket (multiplexer s) (state s) (remote s) (receive_input_queue s)
    (receive_output_queue s) (connect_handler s) n (last_remote_sequence s).

Definition set_last_remote_sequence (l : option Z) (s : socket) : socket :=
  mk_socket (multiplexer s) (state s) (remote s) (receive_input_queue s)
    (receive_output_queue s) (connect_handler s) (next_sequence s) l.

(** ** Running a member function

    A member function runs on the socket and ends in one of three ways: it
    returns, having changed the socket and made some calls; an [assert]
    fails and the process aborts; or it does something the language leaves
    undefined (a null [multiplexer] dereferenced, [front()] of an empty
    queue). *)
Inductive outcome (A : Type) : Type :=
| Done (a : A) (s : socket) (out : list event)
| AssertionFailed (s : socket) (out : list event)
| Undefined.

Arguments Done {A} a s out.
Arguments AssertionFailed {A} s out.
Arguments Undefined {A}.

Definition M (A : Type) : Type := socket -> outcome A.

Definition ret {A : Type} (a : A) : M A := fun s => Done a s [].

Definition bind {A B : Type} (m : M A) (k : A -> M B) : M B :=
  fun s =>
    match m s with
    | Done a s1 out1 =>
        match k a s1 with
        | Done b s2 out2 => Done b s2 (out1 ++ out2)
        | AssertionFailed s2 out2 => AssertionFailed s2 (out1 ++ out2)
        | Undefined => Undefined
        end
    | AssertionFailed s1 out1 => AssertionFailed s1 out1
    | Undefined => Undefined
    end.

Notation "x <- m ;; k" := (bind m (fun x => k))
  (at level 61, m at next level, right associativity).
Notation "m ;; k" := (bind m (fun _ => k))
  (at level 61, right associativity).

Definition get : M socket := fun s => Done s s [].
Definition modify (f : socket -> socket) : M unit := fun s => Done tt (f s) [].
Definition emit (e : event) : M unit := fun s => Done tt s [e].
Definition undefined {A : Type} : M A := fun _ => Undefined.

(** [multiplexer->...]: dereferencing the shared pointer. *)
Definition deref_multiplexer : M unit :=
  s <- get ;;
  match multiplexer s with
  | Some _ => ret tt
  | None => undefined
  end.

(** ** Construction

    [socket (io)] leaves the multiplexer null; [socket (io, local_endpoint)]
    obtains one from the service.  [random] stands for
    [get_service().random()].

    Modelled from the spec: the state a [detail::socket_base] starts in,
    [Closed], "the initial and terminal state"; nor does the source show the
    initial [remote], taken here as a parameter. *)
Definition new_socket (mux : option nat) (remote0 : endpoint_type) (random : Z)
  : socket :=
  {| multiplexer := mux;
     state := closed;
     remote := remote0;
     receive_input_queue := [];
     receive_output_queue := [];
     connect_handler := None;
     next_sequence := random;
     last_remote_sequence := None |}.

(** ** Sample values used by the examples at the end *)

Definition peer : endpoint_type := mk_endpoint (address_v4 0x0A000001) 4000.
Definition wildcard_v4 : endpoint_type := mk_endpoint (address_v4 0) 4000.
Definition wildcard_v6 : endpoint_type := mk_endpoint (address_v6 0) 4000.
Definition hello : buffer := [x68; x65; x6c; x6c; x6f].
Definition two_bytes : buffer_sequence := [[x00; x00]].

(** A bound socket that has done nothing yet, and the same one unbound. *)
Definition idle_socket : socket := new_socket (Some 0%nat) peer 10.
Definition unbound_socket : socket := new_socket None peer 10.

(** A bound socket with one read pending. *)
Definition reading_socket : socket :=
  set_receive_input_queue [mk_input two_bytes 7%nat] idle_socket.

(** A bound socket whose connect is under way. *)
Definition connecting_socket : socket := set_state connecting idle_socket.

(** A bound socket that listens. *)
Definition listening_socket : socket := set_state listening idle_socket.

(** A bound socket that has accepted sequence 41 from its peer. *)
Definition synced_socket : socket :=
  set_last_remote_sequence (Some 41) (set_state established idle_socket).

(** A bound, established socket holding one unread payload. *)
Definition queued_socket : socket :=
  set_receive_output_queue [mk_output no_error (Some hello)] synced_socket.

Definition eight_bytes : buffer_sequence :=
  [[x00; x00; x00]; [x00; x00; x00; x00; x00]].

Section Engine.

(** The width in bits of [sequence_number_type::value_type]. *)
Variable W : Z.

(** Whether the header is compiled with [NDEBUG], which turns every
    [assert] into nothing. *)
Variable NDEBUG : bool.

(** ** Sequence numbers *)

(** Modelled from the spec: [sequence_number::next], of a header that is not
    part of this source tree: [next(s) = (s+1) mod 2^W]. *)
Definition next (v : Z) : Z := (v + 1) mod 2 ^ W.

(** Modelled from the spec: the modular order on sequence numbers,
    [less(a, b) = ((b - a) mod 2^W) in (0, 2^(W-1)]]. *)
Definition less (a b : Z) : bool :=
  (0 <? (b - a) mod 2 ^ W) && ((b - a) mod 2 ^ W <=? 2 ^ (W - 1)).

(** [assert (b)]. *)
Definition cassert (b : bool) : M unit :=
  if NDEBUG then ret tt
  else if b then ret tt
  else fun s => AssertionFailed s [].

(** [next_sequence++]: yields the old value. *)
Definition post_increment_next_sequence : M Z :=
  s <- get ;;
  modify (set_next_sequence (next (next_sequence s))) ;;
  ret (next_sequence s).

Definition is_expected_packet (s : socket) (seq : Z) : bool :=
  match last_remote_sequence s with
  | Some last => if negb (next last =? seq) then false else true
  | None => true
  end.

(** ** Sending *)

Definition errc_nonzero (error : errc) : bool :=
  match error with
  | substrate_error code => negb (code =? 0)
  | _ => true
  end.

Definition invoke_handler (handler : connect_handler_type) (error : errc) : M unit :=
  cassert (errc_nonzero error) ;;
  emit (io_post (fail_connect handler error)).

Definition invoke_handler_size (handler : token) (error : errc) (size : nat) : M unit :=
  cassert (errc_nonzero error) ;;
  emit (io_post (fail_io handler error size)).

Definition bound (s : socket) : bool :=
  match multiplexer s with Some _ => true | None => false end.

Definition send_handshake (remote_endpoint : endpoint_type) (ack : option Z)
    (handler : connect_handler_type) : M unit :=
  s <- get ;;
  cassert (bound s) ;;
  sequence <- post_increment_next_sequence ;;
  deref_multiplexer ;;
  emit mux_start_receive ;;
  emit (tq_push sequence 0%nat 1000
          (handshake_step remote_endpoint sequence ack)
          (handshake_acked handler)).

Definition send_keepalive (remote_endpoint : endpoint_type) (ack : option Z)
    (handler : connect_handler_type) : M unit :=
  s <- get ;;
  cassert (bound s) ;;
  sequence <- post_increment_next_sequence ;;
  deref_multiplexer ;;
  emit (mux_send_keepalive remote_endpoint sequence ack 0 handler).

Definition send_data (remote_endpoint : endpoint_type) (buffers : buffer_sequence)
    (handler : io_handler) : M unit :=
  s <- get ;;
  cassert (bound s) ;;
  sequence <- post_increment_next_sequence ;;
  deref_multiplexer ;;
  emit mux_start_receive ;;
  emit (tq_push sequence (buffer_size buffers) 1000
          (data_step buffers remote_endpoint sequence)
          handler).

(** The body of a [send_step], run by the transmit queue with its
    [iteration_handler].  [last_remote_sequence] is read when the step runs. *)
Definition run_send_step (step : send_step) (handler : token) : M unit :=
  match step with
  | handshake_step remote_endpoint sequence ack =>
      deref_multiplexer ;;
      emit (mux_send_handshake remote_endpoint sequence ack 0 (iteration_done handler))
  | data_step buffers remote_endpoint sequence =>
      deref_multiplexer ;;
      s <- get ;;
      emit (mux_send_data buffers remote_endpoint sequence
              (last_remote_sequence s) 0 (data_sent handler))
  end.

(** ** Connecting *)

Definition async_connect (remote_endpoint : endpoint_type)
    (handler : connect_handler_type) : M unit :=
  s <- get ;;
  match multiplexer s with
  | None => invoke_handler handler invalid_argument
  | Some _ =>
      match state s with
      | closed =>
          remote_endpoint <-
            (if is_unspecified (address remote_endpoint) then
               if is_v4 (address remote_endpoint) then
                 ret (with_address remote_endpoint loopback_v4)
               else
                 cassert (is_v6 (address remote_endpoint)) ;;
                 ret (with_address remote_endpoint loopback_v6)
             else ret remote_endpoint) ;;
          modify (set_state connecting) ;;
          modify (set_remote remote_endpoint) ;;
          emit mux_add ;;
          send_handshake remote_endpoint None (connect_sent remote_endpoint handler)
      | established => invoke_handler handler already_connected
      | _ => invoke_handler handler already_started
      end
  end.

(** [process_connect] is a template over the handler; it only calls it. *)
Definition process_connect (remote_endpoint : endpoint_type)
    (handler : error_code -> M unit) : M unit :=
  s <- get ;;
  match state s with
  | connecting => handler no_error
  | established => handler no_error
  | listening => cassert false
  | handshaking => cassert false
  | closed => cassert false
  end.

(** The resolver iterator [where] is the list of candidates still ahead;
    the end iterator is the empty list. *)
Definition async_next_connect (where_ : list endpoint_type)
    (handler : connect_handler_type) : M unit :=
  match where_ with
  | [] => undefined
  | candidate :: _ => async_connect candidate (next_connect where_ handler)
  end.

(** [handler] is passed twice: as the value the next lambda captures, and as
    the callable. *)
Definition process_next_connect (error : error_code) (where_ : list endpoint_type)
    (handler : connect_handler_type) (call : error_code -> M unit) : M unit :=
  if is_error error then
    match where_ with
    | [] => undefined
    | _ :: [] => call error
    | _ :: rest => async_next_connect rest handler
    end
  else
    match where_ with
    | [] => undefined
    | candidate :: _ => process_connect candidate call
    end.

(** Calling a handler of signature [void (error_code)]. *)
Fixpoint invoke_connect_handler (handler : connect_handler_type)
    (error : error_code) {struct handler} : M unit :=
  match handler with
  | connect_token t => emit (connect_completed t error)
  | connect_sent remote_endpoint h =>
      if is_error error then invoke_connect_handler h error
      else process_connect remote_endpoint (invoke_connect_handler h)
  | next_connect where_ h =>
      process_next_connect error where_ h (invoke_connect_handler h)
  | handshake_listening remote_endpoint initial =>
      if is_error error then modify (set_state closed)
      else
        modify (set_state established) ;;
        modify (set_last_remote_sequence (Some initial)) ;;
        modify (set_remote remote_endpoint) ;;
        s <- get ;;
        match connect_handler s with
        | Some t =>
            emit (connect_completed t error) ;;
            modify (set_connect_handler None)
        | None => ret tt
        end
  | handshake_connecting remote_endpoint =>
      modify (set_state (if is_error error then closed else established)) ;;
      s <- get ;;
      match connect_handler s with
      | Some t => emit (connect_completed t error)
      | None => ret tt
      end
  | keepalive_ignored => ret tt
  | iteration_done t => emit (iteration_completed t error 0%nat)
  end.

(** Calling a handler of signature [void (error_code, std::size_t)]. *)
Definition invoke_io_handler (handler : io_handler) (error : error_code)
    (size : nat) : M unit :=
  match handler with
  | send_done t => emit (io_completed t error size)
  | handshake_acked h => invoke_connect_handler h error
  | data_sent t => emit (iteration_completed t error size)
  end.

Definition async_connect_host (host service : string)
    (handler : connect_handler_type) : M unit :=
  s <- get ;;
  match multiplexer s with
  | None => invoke_handler handler invalid_argument
  | Some _ => emit (async_resolve host service handler)
  end.

(** The lambda given to [async_resolve]: [this, handler, resolver]. *)
Definition process_resolve (handler : connect_handler_type) (error : error_code)
    (where_ : list endpoint_type) : M unit :=
  if is_error error then invoke_connect_handler handler error
  else async_next_connect where_ handler.

(** ** Receiving *)

(** The buffers of the oldest pending read, into which the multiplexer
    receives directly; [None] is the null pointer. *)
Definition get_recv_buffers (s : socket) : option buffer_sequence :=
  match receive_input_queue s with
  | [] => None
  | front :: _ => Some (input_buffers front)
  end.

Definition process_receive (error : error_code) (bytes_received : nat)
    (handler : token) : M unit :=
  emit (io_completed handler error bytes_received).

(** [payload] is a [shared_ptr]; [*payload] and [payload->size()] need it
    non-null. *)
Definition copy_buffers_and_process_receive (error : error_code)
    (payload : option buffer) (user_buffers : buffer_sequence)
    (handler : token) : M unit :=
  (if negb (is_error error) then
     match payload with
     | Some p => emit (user_buffers_filled (fst (buffer_copy user_buffers p)))
     | None => undefined
     end
   else ret tt) ;;
  match payload with
  | Some p => process_receive error (List.length p) handler
  | None => undefined
  end.

Definition async_receive (buffers : buffer_sequence) (handler : token) : M unit :=
  s <- get ;;
  match multiplexer s with
  | None => invoke_handler_size handler not_connected 0%nat
  | Some _ =>
      match receive_output_queue s with
      | [] =>
          modify (set_receive_input_queue
                    (receive_input_queue s ++ [mk_input buffers handler])) ;;
          emit mux_start_receive
      | _ :: _ => emit (io_post (deliver_output buffers handler))
      end
  end.

(** The closures the io_service runs. *)
Definition run_task (t : task) : M unit :=
  match t with
  | fail_connect handler error => invoke_connect_handler handler (asio_error error)
  | fail_io handler error size => emit (io_completed handler (asio_error error) size)
  | deliver_output buffers handler =>
      s <- get ;;
      match receive_output_queue s with
      | [] => undefined
      | output :: rest =>
          modify (set_receive_output_queue rest) ;;
          copy_buffers_and_process_receive (output_error output) (output_data output)
            buffers handler
      end
  end.

Definition async_send (buffers : buffer_sequence) (handler : token) : M unit :=
  s <- get ;;
  match multiplexer s with
  | None => invoke_handler_size handler not_connected 0%nat
  | Some _ => send_data (remote s) buffers (send_done handler)
  end.

(** ** Protocol entry points *)

Definition payload_has_size (payload : option buffer) (payload_size : nat) : bool :=
  match payload with
  | Some p => Nat.eqb (List.length p) payload_size
  | None => false
  end.

Definition is_null (payload : option buffer) : bool :=
  match payload with Some _ => false | None => true end.

Definition process_data (error : error_code) (sequence_number : Z)
    (payload_size : nat) (payload : option buffer) : M unit :=
  s <- get ;;
  if negb (is_expected_packet s sequence_number) then ret tt
  else
    modify (set_last_remote_sequence (Some sequence_number)) ;;
    match receive_input_queue s with
    | [] =>
        cassert (payload_has_size payload payload_size) ;;
        modify (set_receive_output_queue
                  (receive_output_queue s ++ [mk_output error payload]))
    | input :: rest =>
        cassert (is_null payload) ;;
        modify (set_receive_input_queue rest) ;;
        this <- get ;;
        send_keepalive (remote this) (last_remote_sequence this) keepalive_ignored ;;
        process_receive error payload_size (input_handler input)
    end.

Definition process_handshake (initial : Z) (remote_endpoint : endpoint_type) : M unit :=
  s <- get ;;
  match state s with
  | listening =>
      send_handshake remote_endpoint (Some initial)
        (handshake_listening remote_endpoint initial)
  | connecting =>
      modify (set_state handshaking) ;;
      send_keepalive remote_endpoint (Some initial)
        (handshake_connecting remote_endpoint)
  | handshaking => cassert false
  | established => cassert false
  | closed => cassert false
  end.

Definition process_acknowledgement (ack : Z) : M unit :=
  s <- get ;;
  match state s with
  | established => ret tt
  | handshaking => modify (set_state established)
  | listening => ret tt
  | closed => cassert false
  | connecting => cassert false
  end ;;
  emit (tq_apply_ack ack).

(** ** Everything that can happen to a socket

    The public operations, the entry points called by the multiplexer, and
    the callbacks run by the io_service, the transmit queue, the multiplexer
    and the resolver. *)
Inductive operation : Type :=
| op_set_multiplexer (value : option nat)
| op_async_connect (remote_endpoint : endpoint_type) (handler : token)
| op_async_connect_host (host service : string) (handler : token)
| op_async_receive (buffers : buffer_sequence) (handler : token)
| op_async_send (buffers : buffer_sequence) (handler : token)
| op_process_handshake (initial : Z) (remote_endpoint : endpoint_type)
| op_process_acknowledgement (ack : Z)
| op_process_data (error : error_code) (sequence_number : Z)
    (payload_size : nat) (payload : option buffer)
| op_run_task (t : task)
| op_run_send_step (step : send_step) (handler : token)
| op_connect_handler (handler : connect_handler_type) (error : error_code)
| op_io_handler (handler : io_handler) (error : error_code) (size : nat)
| op_resolved (handler : connect_handler_type) (error : error_code)
    (where_ : list endpoint_type).

Definition exec (o : operation) : M unit :=
  match o with
  | op_set_multiplexer value => modify (set_multiplexer value)
  | op_async_connect remote_endpoint handler =>
      async_connect remote_endpoint (connect_token handler)
  | op_async_connect_host host service handler =>
      async_connect_host host service (connect_token handler)
  | op_async_receive buffers handler => async_receive buffers handler
  | op_async_send buffers handler => async_send buffers handler
  | op_process_handshake initial remote_endpoint =>
      process_handshake initial remote_endpoint
  | op_process_acknowledgement ack => process_acknowledgement ack
  | op_process_data error sequence_number payload_size payload =>
      process_data error sequence_number payload_size payload
  | op_run_task t => run_task t
  | op_run_send_step step handler => run_send_step step handler
  | op_connect_handler handler error => invoke_connect_handler handler error
  | op_io_handler handler error size => invoke_io_handler handler error size
  | op_resolved handler error where_ => process_resolve handler error where_
  end.

(** The sockets reachable from a freshly constructed one. *)
Inductive reachable (s0 : socket) : socket -> Prop :=
| reachable_start : reachable s0 s0
| reachable_step (s s' : socket) (o : operation) (out : list event) :
    reachable s0 s -> exec o s = Done tt s' out -> reachable s0 s'.


(** ** Vocabulary of the statements *)

(** What the two assertions of [process_data] demand of its caller: a
    payload of the announced size when no read is pending, and a null
    payload when one is (the multiplexer then received straight into the
    buffers of that read, see [get_recv_buffers]). *)
Definition data_asserts_hold (s : socket) (payload : option buffer)
    (payload_size : nat) : bool :=
  match receive_input_queue s with
  | [] => payload_has_size payload payload_size
  | _ :: _ => is_null payload
  end.

(** The endpoint [async_connect] works with once it is past its guards. *)
Definition connect_target (remote_endpoint : endpoint_type) : endpoint_type :=
  if is_unspecified (address remote_endpoint) then
    with_address remote_endpoint
      (if is_v4 (address remote_endpoint) then loopback_v4 else loopback_v6)
  else remote_endpoint.

(** The events that hand a freshly allocated sequence number to a
    collaborator: an entry pushed on the transmit queue (HANDSHAKE, DATA) and
    a KEEPALIVE given to the multiplexer.  The [mux_send_handshake] and
    [mux_send_data] of a [send_step] carry the sequence of their entry. *)
Definition allocations (out : list event) : list Z :=
  flat_map (fun e =>
              match e with
              | tq_push sequence _ _ _ _ => [sequence]
              | mux_send_keepalive _ sequence _ _ _ => [sequence]
              | _ => []
              end) out.

(** [n] consecutive sequence numbers starting with [from]. *)
Fixpoint sequence_run (from : Z) (n : nat) : list Z :=
  match n with
  | O => []
  | S n' => from :: sequence_run (next from) n'
  end.

(** The sequences given out during a step are consecutive from the old
    [next_sequence], and [next_sequence] ends just past them. *)
Definition advances (s s' : socket) (out : list event) : Prop :=
  exists n : nat,
    allocations out = sequence_run (next_sequence s) n /\
    next_sequence s' = Nat.iter n next (next_sequence s).

Definition queues_kept (s s' : socket) (out : list event) : Prop :=
  receive_input_queue s' = receive_input_queue s /\
  receive_output_queue s' = receive_output_queue s.

Definition queues_exclusive (s : socket) : Prop :=
  receive_input_queue s = [] \/ receive_output_queue s = [].

(** The five things one operation can do to the pair of receive queues:
    nothing, queue a read while no payload waits, queue a payload while no
    read waits, complete the oldest read, hand out the oldest payload. *)
Definition queues_step (s s' : socket) : Prop :=
  (receive_input_queue s' = receive_input_queue s /\
   receive_output_queue s' = receive_output_queue s)
  \/ (receive_output_queue s = [] /\ receive_output_queue s' = [] /\
      exists x, receive_input_queue s' = receive_input_queue s ++ [x])
  \/ (receive_input_queue s = [] /\ receive_input_queue s' = [] /\
      exists x, receive_output_queue s' = receive_output_queue s ++ [x])
  \/ (receive_output_queue s' = receive_output_queue s /\
      exists x, receive_input_queue s = x :: receive_input_queue s')
  \/ (receive_input_queue s' = receive_input_queue s /\
      exists x, receive_output_queue s = x :: receive_output_queue s').

(** A computation respects a relation between the socket before, the socket
    after and the calls made, when every run that returns is in it. *)
Definition respects (R : socket -> socket -> list event -> Prop) {A : Type}
    (m : M A) : Prop :=
  forall s a s' out, m s = Done a s' out -> R s s' out.

(** Calls that reach the datagram socket or schedule a transmission. *)
Definition substrate_activity (e : event) : bool :=
  match e with
  | mux_add | mux_start_receive
  | mux_send_handshake _ _ _ _ _ | mux_send_keepalive _ _ _ _ _
  | mux_send_data _ _ _ _ _ _ | tq_push _ _ _ _ _ => true
  | _ => false
  end.

Definition emits_keepalive (out : list event) (ack : Z) : Prop :=
  exists remote_endpoint sequence reserved handler,
    In (mux_send_keepalive remote_endpoint sequence (Some ack) reserved handler) out.

(** *** Statements that are put to the test below *)

(** Every accepted datagram is confirmed by a KEEPALIVE with a fresh sequence. *)
Definition accepted_data_is_confirmed (s : socket) (error : error_code)
    (sequence_number : Z) (payload_size : nat) (payload : option buffer) : Prop :=
  is_expected_packet s sequence_number = true ->
  exists s' out,
    process_data error sequence_number payload_size payload s = Done tt s' out /\
    last_remote_sequence s' = Some sequence_number /\
    emits_keepalive out sequence_number /\
    next_sequence s' = next (next_sequence s).

(** Outside [established] and [handshaking] an acknowledgement is ignored. *)
Definition acknowledgement_ignored_elsewhere (s : socket) (ack : Z) : Prop :=
  state s <> established -> state s <> handshaking ->
  process_acknowledgement ack s = Done tt s [].

(** A handshake received while connecting records the peer's initial sequence. *)
Definition handshake_records_initial (s : socket) (initial : Z)
    (remote_endpoint : endpoint_type) : Prop :=
  state s = connecting ->
  exists s' out,
    process_handshake initial remote_endpoint s = Done tt s' out /\
    state s' = handshaking /\
    last_remote_sequence s' = Some initial.



(** * Proofs *)

(** ** Relations that every member function respects

    A relation that holds of doing nothing, composes along sequencing, and
    is respected by the three [send_*] primitives, by the setters other than
    those of the two receive queues and by every call that allocates no
    sequence, is respected by all the code that neither reads nor writes the
    receive queues. *)
Section Respects.

Variable R : socket -> socket -> list event -> Prop.

Hypothesis R_ret : forall s, R s s [].
Hypothesis R_seq : forall s s1 s2 o1 o2,
  R s s1 o1 -> R s1 s2 o2 -> R s s2 (o1 ++ o2).
Hypothesis R_emit : forall s e, allocations [e] = [] -> R s s [e].
Hypothesis R_multiplexer : forall s v, R s (set_multiplexer v s) [].
Hypothesis R_state : forall s c, R s (set_state c s) [].
Hypothesis R_remote : forall s e, R s (set_remote e s) [].
Hypothesis R_connect_handler : forall s h, R s (set_connect_handler h s) [].
Hypothesis R_last_remote_sequence : forall s l, R s (set_last_remote_sequence l s) [].
Hypothesis R_send_handshake : forall r a h, respects R (send_handshake r a h).
Hypothesis R_send_keepalive : forall r a h, respects R (send_keepalive r a h).
Hypothesis R_send_data : forall r b h, respects R (send_data r b h).

Lemma respects_ret (A : Type) (a : A) : respects R (ret a).
Proof.
  intros s a' s' out H. inversion H; subst. apply R_ret.
Qed.

Lemma respects_get : respects R get.
Proof.
  intros s a s' out H. inversion H; subst. apply R_ret.
Qed.

Lemma respects_undefined (A : Type) : respects R (@undefined A).
Proof.
  intros s a s' out H. discriminate H.
Qed.

Lemma respects_bind (A B : Type) (m : M A) (k : A -> M B) :
  respects R m -> (forall a, respects R (k a)) -> respects R (bind m k).
Proof.
  intros Hm Hk s b s2 out H. unfold bind in H.
  destruct (m s) as [a s1 o1 | |] eqn:Em; try discriminate.
  destruct (k a s1) as [b' s2' o2 | |] eqn:Ek; try discriminate.
  inversion H; subst.
  eapply R_seq; [eapply Hm | eapply Hk]; eassumption.
Qed.

Lemma respects_cassert (b : bool) : respects R (cassert b).
Proof.
  intros s a s' out H. unfold cassert in H.
  destruct NDEBUG; [| destruct b]; inversion H; subst; apply R_ret.
Qed.

Lemma respects_emit (e : event) : allocations [e] = [] -> respects R (emit e).
Proof.
  intros He s a s' out H. inversion H; subst. now apply R_emit.
Qed.

Lemma respects_deref_multiplexer : respects R deref_multiplexer.
Proof.
  unfold deref_multiplexer.
  apply respects_bind; [apply respects_get | intro s].
  destruct (multiplexer s); [apply respects_ret | apply respects_undefined].
Qed.

Lemma respects_set_state c : respects R (modify (set_state c)).
Proof. intros s a s' out H. inversion H; subst. apply R_state. Qed.

Lemma respects_set_remote e : respects R (modify (set_remote e)).
Proof. intros s a s' out H. inversion H; subst. apply R_remote. Qed.

Lemma respects_set_connect_handler h : respects R (modify (set_connect_handler h)).
Proof. intros s a s' out H. inversion H; subst. apply R_connect_handler. Qed.

Lemma respects_set_last_remote_sequence l :
  respects R (modify (set_last_remote_sequence l)).
Proof. intros s a s' out H. inversion H; subst. apply R_last_remote_sequence. Qed.

Lemma respects_set_multiplexer v : respects R (modify (set_multiplexer v)).
Proof. intros s a s' out H. inversion H; subst. apply R_multiplexer. Qed.

(** One step through a computation: split a bind, decide a branch, or close
    a leaf with the lemma for its primitive. *)
Ltac respects_step :=
  match goal with
  | |- respects _ (bind _ _) => apply respects_bind; [| intro; cbv beta]
  | |- respects _ (ret _) => apply respects_ret
  | |- respects _ get => apply respects_get
  | |- respects _ undefined => apply respects_undefined
  | |- respects _ (cassert _) => apply respects_cassert
  | |- respects _ deref_multiplexer => apply respects_deref_multiplexer
  | |- respects _ (emit _) => apply respects_emit; reflexivity
  | |- respects _ (modify (set_state _)) => apply respects_set_state
  | |- respects _ (modify (set_remote _)) => apply respects_set_remote
  | |- respects _ (modify (set_connect_handler _)) => apply respects_set_connect_handler
  | |- respects _ (modify (set_last_remote_sequence _)) =>
      apply respects_set_last_remote_sequence
  | |- respects _ (modify (set_multiplexer _)) => apply respects_set_multiplexer
  | |- respects _ (send_handshake _ _ _) => apply R_send_handshake
  | |- respects _ (send_keepalive _ _ _) => apply R_send_keepalive
  | |- respects _ (send_data _ _ _) => apply R_send_data
  | |- respects _ (match ?x with _ => _ end) => destruct x
  end.

Ltac respects_walk := repeat respects_step.

Lemma respects_invoke_handler h e : respects R (invoke_handler h e).
Proof. unfold invoke_handler. respects_walk. Qed.

Lemma respects_invoke_handler_size h e n : respects R (invoke_handler_size h e n).
Proof. unfold invoke_handler_size. respects_walk. Qed.

Lemma respects_async_connect r h : respects R (async_connect r h).
Proof.
  unfold async_connect. respects_walk; apply respects_invoke_handler.
Qed.

Lemma respects_process_connect r (call : error_code -> M unit) :
  (forall e, respects R (call e)) -> respects R (process_connect r call).
Proof.
  intro Hcall. unfold process_connect. respects_walk; apply Hcall.
Qed.

Lemma respects_async_next_connect w h : respects R (async_next_connect w h).
Proof.
  unfold async_next_connect. respects_walk. apply respects_async_connect.
Qed.

Lemma respects_process_next_connect e w h (call : error_code -> M unit) :
  (forall e', respects R (call e')) -> respects R (process_next_connect e w h call).
Proof.
  intro Hcall. unfold process_next_connect.
  respects_walk;
    solve [apply Hcall
          | apply respects_async_next_connect
          | apply respects_process_connect; exact Hcall].
Qed.

Lemma respects_invoke_connect_handler h :
  forall e, respects R (invoke_connect_handler h e).
Proof.
  induction h; intro e; simpl.
  - respects_walk.
  - respects_walk; [apply IHh | apply respects_process_connect; exact IHh].
  - apply respects_process_next_connect; exact IHh.
  - respects_walk.
  - respects_walk.
  - respects_walk.
  - respects_walk.
Qed.

Lemma respects_invoke_io_handler h e n : respects R (invoke_io_handler h e n).
Proof.
  destruct h; simpl; respects_walk. apply respects_invoke_connect_handler.
Qed.

Lemma respects_async_connect_host host service h :
  respects R (async_connect_host host service h).
Proof.
  unfold async_connect_host. respects_walk. apply respects_invoke_handler.
Qed.

Lemma respects_process_resolve h e w : respects R (process_resolve h e w).
Proof.
  unfold process_resolve. respects_walk;
    [apply respects_invoke_connect_handler | apply respects_async_next_connect].
Qed.

Lemma respects_process_receive e n h : respects R (process_receive e n h).
Proof. unfold process_receive. respects_walk. Qed.

Lemma respects_copy_buffers_and_process_receive e p u h :
  respects R (copy_buffers_and_process_receive e p u h).
Proof.
  unfold copy_buffers_and_process_receive.
  respects_walk; apply respects_process_receive.
Qed.

Lemma respects_async_send b h : respects R (async_send b h).
Proof.
  unfold async_send. respects_walk. apply respects_invoke_handler_size.
Qed.

Lemma respects_process_handshake i r : respects R (process_handshake i r).
Proof. unfold process_handshake. respects_walk. Qed.

Lemma respects_process_acknowledgement a : respects R (process_acknowledgement a).
Proof. unfold process_acknowledgement. respects_walk. Qed.

Lemma respects_run_send_step st h : respects R (run_send_step st h).
Proof. destruct st; simpl; respects_walk. Qed.

(** With the setters of the receive queues in the relation too, all of the
    socket respects it. *)
Section WithQueues.

Hypothesis R_receive_input_queue : forall s q, R s (set_receive_input_queue q s) [].
Hypothesis R_receive_output_queue : forall s q, R s (set_receive_output_queue q s) [].

Lemma respects_set_receive_input_queue q :
  respects R (modify (set_receive_input_queue q)).
Proof. intros s a s' out H. inversion H; subst. apply R_receive_input_queue. Qed.

Lemma respects_set_receive_output_queue q :
  respects R (modify (set_receive_output_queue q)).
Proof. intros s a s' out H. inversion H; subst. apply R_receive_output_queue. Qed.

Ltac respects_queues :=
  repeat first
    [ respects_step
    | apply respects_set_receive_input_queue
    | apply respects_set_receive_output_queue ].

Lemma respects_async_receive b h : respects R (async_receive b h).
Proof.
  unfold async_receive. respects_queues. apply respects_invoke_handler_size.
Qed.

Lemma respects_run_task t : respects R (run_task t).
Proof.
  destruct t; simpl; respects_queues.
  - apply respects_invoke_connect_handler.
  - apply respects_copy_buffers_and_process_receive.
Qed.

Lemma respects_process_data e q n p : respects R (process_data e q n p).
Proof.
  unfold process_data. respects_queues. apply respects_process_receive.
Qed.

Lemma respects_exec o : respects R (exec o).
Proof.
  destruct o; simpl.
  - apply respects_set_multiplexer.
  - apply respects_async_connect.
  - apply respects_async_connect_host.
  - apply respects_async_receive.
  - apply respects_async_send.
  - apply respects_process_handshake.
  - apply respects_process_acknowledgement.
  - apply respects_process_data.
  - apply respects_run_task.
  - apply respects_run_send_step.
  - apply respects_invoke_connect_handler.
  - apply respects_invoke_io_handler.
  - apply respects_process_resolve.
Qed.

End WithQueues.

End Respects.

(** ** Sequence arithmetic *)

(** A sequence number has at least one bit. *)
Hypothesis W_pos : 0 < W.

Lemma modulus_ge_2 : 2 <= 2 ^ W.
Proof.
  replace 2 with (2 ^ 1) at 1 by reflexivity.
  apply Z.pow_le_mono_r; lia.
Qed.

Lemma next_range (v : Z) : 0 <= next v < 2 ^ W.
Proof.
  unfold next. apply Z.mod_pos_bound. pose proof modulus_ge_2. lia.
Qed.

Lemma next_neq (v : Z) : next v <> v.
Proof.
  pose proof modulus_ge_2 as Hm. pose proof (next_range v) as Hr.
  unfold next in *. intro E.
  destruct (Z.eq_dec (v + 1) (2 ^ W)) as [Hw | Hw].
  - rewrite Hw, Z.mod_same in E by lia. lia.
  - rewrite Z.mod_small in E by lia. lia.
Qed.

Lemma less_next (v : Z) : less v (next v) = true.
Proof.
  pose proof modulus_ge_2 as Hm.
  unfold less, next.
  rewrite Zminus_mod_idemp_l.
  replace (v + 1 - v) with 1 by lia.
  rewrite Z.mod_small by lia.
  assert (1 <= 2 ^ (W - 1)).
  { replace 1 with (2 ^ 0) at 1 by reflexivity. apply Z.pow_le_mono_r; lia. }
  apply andb_true_intro; split; [reflexivity | now apply Z.leb_le].
Qed.

(** ** The three senders *)

Lemma bound_multiplexer (s : socket) :
  bound s = true -> exists m, multiplexer s = Some m.
Proof.
  unfold bound. destruct (multiplexer s) as [m |]; [eauto | discriminate].
Qed.

Lemma send_handshake_bound s r a h :
  bound s = true ->
  send_handshake r a h s
  = Done tt (set_next_sequence (next (next_sequence s)) s)
      [mux_start_receive;
       tq_push (next_sequence s) 0%nat 1000
         (handshake_step r (next_sequence s) a) (handshake_acked h)].
Proof.
  intro Hb. destruct (bound_multiplexer s Hb) as [m Hm].
  unfold send_handshake, cassert, post_increment_next_sequence,
    deref_multiplexer, bind, get, modify, emit, ret.
  rewrite Hb. destruct NDEBUG; simpl; rewrite Hm; reflexivity.
Qed.

Lemma send_keepalive_bound s r a h :
  bound s = true ->
  send_keepalive r a h s
  = Done tt (set_next_sequence (next (next_sequence s)) s)
      [mux_send_keepalive r (next_sequence s) a 0 h].
Proof.
  intro Hb. destruct (bound_multiplexer s Hb) as [m Hm].
  unfold send_keepalive, cassert, post_increment_next_sequence,
    deref_multiplexer, bind, get, modify, emit, ret.
  rewrite Hb. destruct NDEBUG; simpl; rewrite Hm; reflexivity.
Qed.

Lemma send_data_bound s r b h :
  bound s = true ->
  send_data r b h s
  = Done tt (set_next_sequence (next (next_sequence s)) s)
      [mux_start_receive;
       tq_push (next_sequence s) (buffer_size b) 1000
         (data_step b r (next_sequence s)) h].
Proof.
  intro Hb. destruct (bound_multiplexer s Hb) as [m Hm].
  unfold send_data, cassert, post_increment_next_sequence,
    deref_multiplexer, bind, get, modify, emit, ret.
  rewrite Hb. destruct NDEBUG; simpl; rewrite Hm; reflexivity.
Qed.

(** Without a multiplexer no sender returns: the assertion fails, or with
    assertions compiled out the null pointer is dereferenced. *)
Lemma send_handshake_unbound s r a h :
  bound s = false ->
  send_handshake r a h s = if NDEBUG then Undefined else AssertionFailed s [].
Proof.
  intro Hb.
  assert (Hm : multiplexer s = None)
    by (unfold bound in Hb; destruct (multiplexer s); [discriminate | reflexivity]).
  unfold send_handshake, cassert, post_increment_next_sequence,
    deref_multiplexer, bind, get, modify, emit, ret.
  rewrite Hb. destruct NDEBUG; simpl; try rewrite Hm; reflexivity.
Qed.

Lemma send_keepalive_unbound s r a h :
  bound s = false ->
  send_keepalive r a h s = if NDEBUG then Undefined else AssertionFailed s [].
Proof.
  intro Hb.
  assert (Hm : multiplexer s = None)
    by (unfold bound in Hb; destruct (multiplexer s); [discriminate | reflexivity]).
  unfold send_keepalive, cassert, post_increment_next_sequence,
    deref_multiplexer, bind, get, modify, emit, ret.
  rewrite Hb. destruct NDEBUG; simpl; try rewrite Hm; reflexivity.
Qed.

Lemma send_data_unbound s r b h :
  bound s = false ->
  send_data r b h s = if NDEBUG then Undefined else AssertionFailed s [].
Proof.
  intro Hb.
  assert (Hm : multiplexer s = None)
    by (unfold bound in Hb; destruct (multiplexer s); [discriminate | reflexivity]).
  unfold send_data, cassert, post_increment_next_sequence,
    deref_multiplexer, bind, get, modify, emit, ret.
  rewrite Hb. destruct NDEBUG; simpl; try rewrite Hm; reflexivity.
Qed.

(** A sender that returns ran on a bound socket. *)
Ltac sender_cases s H bound_eq unbound_eq :=
  destruct (bound s) eqn:Hb;
  [ rewrite bound_eq in H by exact Hb; inversion H; subst; clear H
  | rewrite unbound_eq in H by exact Hb; destruct NDEBUG; discriminate H ].

(** ** [advances] is respected by the whole socket *)

Lemma sequence_run_app (from : Z) (n m : nat) :
  sequence_run from (n + m)
  = sequence_run from n ++ sequence_run (Nat.iter n next from) m.
Proof.
  revert from. induction n as [| n IH]; intro from; simpl.
  - reflexivity.
  - rewrite IH, <- Nat.iter_succ_r. reflexivity.
Qed.

Lemma allocations_app (o1 o2 : list event) :
  allocations (o1 ++ o2) = allocations o1 ++ allocations o2.
Proof. unfold allocations. apply flat_map_app. Qed.

Lemma advances_ret s : advances s s [].
Proof. exists 0%nat. split; reflexivity. Qed.

Lemma advances_seq s s1 s2 o1 o2 :
  advances s s1 o1 -> advances s1 s2 o2 -> advances s s2 (o1 ++ o2).
Proof.
  intros [n [Ha Hn]] [m [Hb Hm]]. exists (n + m)%nat. split.
  - rewrite allocations_app, sequence_run_app, Ha, Hb, Hn. reflexivity.
  - rewrite Hm, Hn, Nat.add_comm. symmetry. apply Nat.iter_add.
Qed.

Lemma advances_emit s e : allocations [e] = [] -> advances s s [e].
Proof. intro He. exists 0%nat. split; [exact He | reflexivity]. Qed.

Lemma advances_same_next s s' :
  next_sequence s' = next_sequence s -> advances s s' [].
Proof. intro E. exists 0%nat. split; [reflexivity | exact E]. Qed.

Lemma advances_once s e :
  allocations [e] = [next_sequence s] ->
  forall o1 o2, allocations o1 = [] -> allocations o2 = [] ->
  advances s (set_next_sequence (next (next_sequence s)) s) (o1 ++ e :: o2).
Proof.
  intros He o1 o2 H1 H2. exists 1%nat. split; [| reflexivity].
  change (e :: o2) with ([e] ++ o2).
  rewrite !allocations_app, H1, H2, He. reflexivity.
Qed.

Lemma advances_send_handshake r a h : respects advances (send_handshake r a h).
Proof.
  intros s u s' out H.
  sender_cases s H send_handshake_bound send_handshake_unbound.
  apply (advances_once s (tq_push _ _ _ _ _) eq_refl [mux_start_receive] []);
    reflexivity.
Qed.

Lemma advances_send_keepalive r a h : respects advances (send_keepalive r a h).
Proof.
  intros s u s' out H.
  sender_cases s H send_keepalive_bound send_keepalive_unbound.
  apply (advances_once s (mux_send_keepalive _ _ _ _ _) eq_refl [] []);
    reflexivity.
Qed.

Lemma advances_send_data r b h : respects advances (send_data r b h).
Proof.
  intros s u s' out H.
  sender_cases s H send_data_bound send_data_unbound.
  apply (advances_once s (tq_push _ _ _ _ _) eq_refl [mux_start_receive] []);
    reflexivity.
Qed.

Lemma advances_exec o : respects advances (exec o).
Proof.
  apply respects_exec;
    first [ exact advances_seq
          | exact advances_emit
          | exact advances_send_handshake
          | exact advances_send_keepalive
          | exact advances_send_data
          | intros; apply advances_same_next; reflexivity ].
Qed.

(** ** [process_data], case by case *)

Lemma process_data_unexpected s error seq size payload :
  is_expected_packet s seq = false ->
  process_data error seq size payload s = Done tt s [].
Proof.
  intro He. unfold process_data, bind, get, ret. simpl. rewrite He. reflexivity.
Qed.

Lemma process_data_stores s error seq size payload :
  is_expected_packet s seq = true ->
  receive_input_queue s = [] ->
  NDEBUG || payload_has_size payload size = true ->
  process_data error seq size payload s
  = Done tt
      (set_receive_output_queue
         (receive_output_queue s ++ [mk_output error payload])
         (set_last_remote_sequence (Some seq) s))
      [].
Proof.
  intros He Hq Ha.
  unfold process_data, cassert, bind, get, modify, ret. simpl.
  rewrite He, Hq. simpl.
  destruct NDEBUG; simpl in *; [reflexivity | rewrite Ha; reflexivity].
Qed.

Lemma process_data_completes s error seq size payload input rest :
  is_expected_packet s seq = true ->
  receive_input_queue s = input :: rest ->
  bound s = true ->
  NDEBUG || is_null payload = true ->
  process_data error seq size payload s
  = Done tt
      (set_next_sequence (next (next_sequence s))
         (set_receive_input_queue rest
            (set_last_remote_sequence (Some seq) s)))
      [mux_send_keepalive (remote s) (next_sequence s) (Some seq) 0 keepalive_ignored;
       io_completed (input_handler input) error size].
Proof.
  intros He Hq Hb Ha.
  unfold process_data, process_receive, bind at 1, get at 1. simpl.
  rewrite He, Hq. simpl.
  unfold bind at 1, modify at 1. simpl.
  unfold bind at 1.
  assert (Hc : forall t,
             cassert (is_null payload) t = Done tt t []).
  { intro t. unfold cassert, ret.
    destruct NDEBUG; simpl in *; [reflexivity | rewrite Ha; reflexivity]. }
  rewrite Hc. simpl.
  unfold bind at 1, modify at 1. simpl.
  unfold bind at 1, get at 1. simpl.
  unfold bind at 1.
  rewrite send_keepalive_bound by exact Hb.
  reflexivity.
Qed.

(** ** The receive queues *)

Lemma queues_exclusive_step s s' :
  queues_step s s' -> queues_exclusive s -> queues_exclusive s'.
Proof.
  unfold queues_step, queues_exclusive.
  intros [[Hi Ho] | [[Ho [Ho' _]] | [[Hi [Hi' _]] | [[Ho [x Hi]] | [Hi [x Ho]]]]]] Hex.
  - rewrite Hi, Ho. exact Hex.
  - right. exact Ho'.
  - left. exact Hi'.
  - rewrite Ho. destruct Hex as [Hex | Hex]; [| now right].
    rewrite Hex in Hi. discriminate Hi.
  - rewrite Hi. destruct Hex as [Hex | Hex]; [now left |].
    rewrite Hex in Ho. discriminate Ho.
Qed.

Lemma queues_kept_seq s s1 s2 (o1 o2 : list event) :
  queues_kept s s1 o1 -> queues_kept s1 s2 o2 -> queues_kept s s2 (o1 ++ o2).
Proof.
  unfold queues_kept. intros [Hi Ho] [Hi' Ho']. split; congruence.
Qed.

Lemma queues_kept_send_handshake r a h : respects queues_kept (send_handshake r a h).
Proof.
  intros s u s' out H.
  sender_cases s H send_handshake_bound send_handshake_unbound.
  split; reflexivity.
Qed.

Lemma queues_kept_send_keepalive r a h : respects queues_kept (send_keepalive r a h).
Proof.
  intros s u s' out H.
  sender_cases s H send_keepalive_bound send_keepalive_unbound.
  split; reflexivity.
Qed.

Lemma queues_kept_send_data r b h : respects queues_kept (send_data r b h).
Proof.
  intros s u s' out H.
  sender_cases s H send_data_bound send_data_unbound.
  split; reflexivity.
Qed.

(** Instantiating the lemmas of [Respects] at [queues_kept]. *)
Ltac queues_kept_by lemma :=
  apply lemma;
  first [ exact queues_kept_seq
        | exact queues_kept_send_handshake
        | exact queues_kept_send_keepalive
        | exact queues_kept_send_data
        | intros; split; reflexivity ].

Lemma queues_kept_invoke_connect_handler h e :
  respects queues_kept (invoke_connect_handler h e).
Proof. queues_kept_by respects_invoke_connect_handler. Qed.

Lemma queues_kept_async_connect r h : respects queues_kept (async_connect r h).
Proof. queues_kept_by respects_async_connect. Qed.

Lemma queues_kept_async_connect_host host service h :
  respects queues_kept (async_connect_host host service h).
Proof. queues_kept_by respects_async_connect_host. Qed.

Lemma queues_kept_async_send b h : respects queues_kept (async_send b h).
Proof. queues_kept_by respects_async_send. Qed.

Lemma queues_kept_process_handshake i r :
  respects queues_kept (process_handshake i r).
Proof. queues_kept_by respects_process_handshake. Qed.

Lemma queues_kept_process_acknowledgement a :
  respects queues_kept (process_acknowledgement a).
Proof. queues_kept_by respects_process_acknowledgement. Qed.

Lemma queues_kept_run_send_step st h : respects queues_kept (run_send_step st h).
Proof. queues_kept_by respects_run_send_step. Qed.

Lemma queues_kept_invoke_io_handler h e n :
  respects queues_kept (invoke_io_handler h e n).
Proof. queues_kept_by respects_invoke_io_handler. Qed.

Lemma queues_kept_process_resolve h e w :
  respects queues_kept (process_resolve h e w).
Proof. queues_kept_by respects_process_resolve. Qed.

Lemma async_receive_queues buffers handler s s' out :
  async_receive buffers handler s = Done tt s' out ->
  (receive_input_queue s' = receive_input_queue s /\
   receive_output_queue s' = receive_output_queue s)
  \/ (receive_output_queue s = [] /\ receive_output_queue s' = [] /\
      receive_input_queue s' = receive_input_queue s ++ [mk_input buffers handler]).
Proof.
  unfold async_receive, invoke_handler_size, cassert, bind, get, modify, emit, ret.
  simpl.
  destruct (multiplexer s); [destruct (receive_output_queue s) eqn:Ho |];
    destruct NDEBUG; simpl; intro H; inversion H; subst; simpl; auto.
Qed.

Lemma process_data_queues error seq size payload s s' out :
  process_data error seq size payload s = Done tt s' out ->
  (receive_input_queue s' = receive_input_queue s /\
   receive_output_queue s' = receive_output_queue s)
  \/ (receive_input_queue s = [] /\ receive_input_queue s' = [] /\
      receive_output_queue s'
      = receive_output_queue s ++ [mk_output error payload])
  \/ (receive_output_queue s' = receive_output_queue s /\
      exists x, receive_input_queue s = x :: receive_input_queue s').
Proof.
  intro H.
  destruct (is_expected_packet s seq) eqn:He.
  2:{ rewrite process_data_unexpected in H by exact He.
      inversion H; subst. auto. }
  destruct (receive_input_queue s) as [| input rest] eqn:Hq.
  - destruct (NDEBUG || payload_has_size payload size) eqn:Ha.
    + rewrite process_data_stores in H by assumption.
      inversion H; subst. simpl. auto.
    + exfalso. revert H.
      unfold process_data, cassert, bind, get, modify, ret. simpl.
      rewrite He, Hq. simpl.
      destruct NDEBUG; simpl in *; [discriminate |].
      rewrite Ha. discriminate.
  - destruct (NDEBUG || is_null payload) eqn:Ha; [destruct (bound s) eqn:Hb |].
    + rewrite (process_data_completes _ _ _ _ _ input rest) in H by assumption.
      inversion H; subst. simpl. right. right. eauto.
    + exfalso. revert H.
      assert (Hm : multiplexer s = None)
        by (unfold bound in Hb; destruct (multiplexer s);
            [discriminate | reflexivity]).
      unfold process_data, process_receive, send_keepalive,
        post_increment_next_sequence, deref_multiplexer, cassert, bound,
        bind, get, modify, emit, ret.
      simpl. rewrite He, Hq. simpl.
      destruct NDEBUG, (is_null payload); simpl; try rewrite Hm; discriminate.
    + exfalso. revert H.
      unfold process_data, cassert, bind, get, modify, ret. simpl.
      rewrite He, Hq. simpl.
      destruct NDEBUG; simpl in *; [discriminate |].
      rewrite Ha. discriminate.
Qed.

Lemma run_task_queues t s s' out :
  run_task t s = Done tt s' out ->
  (receive_input_queue s' = receive_input_queue s /\
   receive_output_queue s' = receive_output_queue s)
  \/ (receive_input_queue s' = receive_input_queue s /\
      exists x, receive_output_queue s = x :: receive_output_queue s').
Proof.
  destruct t as [h e | h e n | buffers h]; simpl; intro H.
  - left. exact (queues_kept_invoke_connect_handler h (asio_error e) s tt s' out H).
  - inversion H; subst. auto.
  - right. revert H.
    unfold copy_buffers_and_process_receive, process_receive,
      bind, get, modify, emit, ret. simpl.
    destruct (receive_output_queue s) as [| output rest] eqn:Ho; [discriminate |].
    simpl.
    destruct (output_error output), (output_data output); simpl;
      intro H; inversion H; subst; simpl; eauto.
Qed.

Lemma exec_queues_step o s s' out :
  exec o s = Done tt s' out -> queues_step s s'.
Proof.
  unfold queues_step.
  destruct o; simpl; intro H.
  - inversion H; subst. auto.
  - left. exact (queues_kept_async_connect _ _ _ _ _ _ H).
  - left. exact (queues_kept_async_connect_host _ _ _ _ _ _ _ H).
  - destruct (async_receive_queues _ _ _ _ _ H) as [K | [Ho [Ho' Hi]]]; eauto 8.
  - left. exact (queues_kept_async_send _ _ _ _ _ _ H).
  - left. exact (queues_kept_process_handshake _ _ _ _ _ _ H).
  - left. exact (queues_kept_process_acknowledgement _ _ _ _ _ H).
  - destruct (process_data_queues _ _ _ _ _ _ _ H) as [K | [[Hi [Hi' Ho]] | K]];
      eauto 8.
  - destruct (run_task_queues _ _ _ _ H) as [K | K]; auto 8.
  - left. exact (queues_kept_run_send_step _ _ _ _ _ _ H).
  - left. exact (queues_kept_invoke_connect_handler _ _ _ _ _ _ H).
  - left. exact (queues_kept_invoke_io_handler _ _ _ _ _ _ _ H).
  - left. exact (queues_kept_process_resolve _ _ _ _ _ _ _ H).
Qed.

Lemma reachable_queues_exclusive s0 s :
  queues_exclusive s0 -> reachable s0 s -> queues_exclusive s.
Proof.
  intros H0 Hr. induction Hr as [| s s' o out Hr IH Hstep].
  - exact H0.
  - eapply queues_exclusive_step; [eapply exec_queues_step |]; eassumption.
Qed.

(** ** The sequence filter *)

Lemma is_expected_packet_after s (last seq : Z) :
  last_remote_sequence s = Some last ->
  is_expected_packet s seq = (next last =? seq).
Proof.
  intro Hl. unfold is_expected_packet. rewrite Hl.
  destruct (next last =? seq); reflexivity.
Qed.

(** C1: an inbound DATA whose sequence is not the successor of
    [last_remote_sequence] is dropped silently: [process_data] returns with
    the socket unchanged (so [last_remote_sequence] stays, nothing is queued)
    and without any call or completion; in particular a duplicate of the last
    accepted sequence is dropped. *)
Theorem process_data_drops_out_of_order :
  forall s error seq size payload last,
    last_remote_sequence s = Some last ->
    (seq <> next last ->
     process_data error seq size payload s = Done tt s []) /\
    process_data error last size payload s = Done tt s [].
Proof.
  intros s error seq size payload last Hl.
  assert (Hdrop : forall q, q <> next last ->
                    process_data error q size payload s = Done tt s []).
  { intros q Hq. apply process_data_unexpected.
    rewrite (is_expected_packet_after s last q Hl).
    apply Z.eqb_neq. congruence. }
  split.
  - apply Hdrop.
  - apply Hdrop. intro E. exact (next_neq last (eq_sym E)).
Qed.

(** C10: while [last_remote_sequence] is unset, [is_expected_packet] lets
    every sequence through, so the first DATA is accepted whatever its
    sequence, and that sequence becomes the baseline: afterwards exactly its
    successor is expected. *)
Theorem first_data_sets_baseline :
  forall s,
    last_remote_sequence s = None ->
    (forall seq, is_expected_packet s seq = true) /\
    (forall error seq size payload,
        bound s = true ->
        NDEBUG || data_asserts_hold s payload size = true ->
        exists s' out,
          process_data error seq size payload s = Done tt s' out /\
          last_remote_sequence s' = Some seq /\
          forall seq', is_expected_packet s' seq' = (next seq =? seq')).
Proof.
  intros s Hl.
  assert (He : forall seq, is_expected_packet s seq = true)
    by (intro seq; unfold is_expected_packet; rewrite Hl; reflexivity).
  split; [exact He |].
  intros error seq size payload Hb Ha.
  unfold data_asserts_hold in Ha.
  destruct (receive_input_queue s) as [| input rest] eqn:Hq.
  - eexists. eexists. split; [| split].
    + apply process_data_stores; [apply He | exact Hq | exact Ha].
    + reflexivity.
    + intro seq'. apply is_expected_packet_after. reflexivity.
  - eexists. eexists. split; [| split].
    + apply (process_data_completes s error seq size payload input rest);
        [apply He | exact Hq | exact Hb | exact Ha].
    + reflexivity.
    + intro seq'. apply is_expected_packet_after. reflexivity.
Qed.

(** What [process_data] does with a datagram that passes the filter, by the
    state of [receive_input_queue]: with no read pending it appends the
    payload to the output queue and returns; with a read pending it removes
    the oldest read, calls [send_keepalive] and completes that read. *)
Theorem process_data_accepts_in_order :
  forall s error seq size payload,
    is_expected_packet s seq = true ->
    bound s = true ->
    NDEBUG || data_asserts_hold s payload size = true ->
    match receive_input_queue s with
    | [] =>
        process_data error seq size payload s
        = Done tt
            (set_receive_output_queue
               (receive_output_queue s ++ [mk_output error payload])
               (set_last_remote_sequence (Some seq) s))
            []
    | input :: rest =>
        process_data error seq size payload s
        = Done tt
            (set_next_sequence (next (next_sequence s))
               (set_receive_input_queue rest
                  (set_last_remote_sequence (Some seq) s)))
            [mux_send_keepalive (remote s) (next_sequence s) (Some seq) 0
               keepalive_ignored;
             io_completed (input_handler input) error size]
    end.
Proof.
  intros s error seq size payload He Hb Ha.
  unfold data_asserts_hold in Ha.
  destruct (receive_input_queue s) as [| input rest] eqn:Hq.
  - now apply process_data_stores.
  - now apply process_data_completes.
Qed.

(** ** Acknowledgements and handshakes *)

(** C3, amended: [process_acknowledgement] applies the ack to the transmit
    queue in [established], in [handshaking] (after moving to [established])
    and also in [listening], where the state stays; in [closed] and
    [connecting] it asserts: with assertions on, the process aborts before
    anything is applied, and with assertions compiled out the ack is applied
    and the state stays. *)
Theorem process_acknowledgement_by_state :
  forall s ack,
    process_acknowledgement ack s
    = match state s with
      | established => Done tt s [tq_apply_ack ack]
      | handshaking => Done tt (set_state established s) [tq_apply_ack ack]
      | listening => Done tt s [tq_apply_ack ack]
      | closed | connecting =>
          if NDEBUG then Done tt s [tq_apply_ack ack] else AssertionFailed s []
      end.
Proof.
  intros s ack.
  unfold process_acknowledgement, cassert, bind, get, modify, emit, ret. simpl.
  destruct (state s); destruct NDEBUG; reflexivity.
Qed.

Lemma invoke_handshake_connecting ep error s :
  invoke_connect_handler (handshake_connecting ep) error s
  = Done tt (set_state (if is_error error then closed else established) s)
      match connect_handler s with
      | Some t => [connect_completed t error]
      | None => []
      end.
Proof.
  simpl. unfold bind, get, modify, emit, ret. simpl.
  destruct (connect_handler s); reflexivity.
Qed.

Lemma process_handshake_connecting s initial ep :
  state s = connecting ->
  bound s = true ->
  process_handshake initial ep s
  = Done tt (set_next_sequence (next (next_sequence s)) (set_state handshaking s))
      [mux_send_keepalive ep (next_sequence s) (Some initial) 0
         (handshake_connecting ep)].
Proof.
  intros Hs Hb.
  unfold process_handshake, bind at 1, get at 1. simpl. rewrite Hs.
  unfold bind, modify. simpl.
  rewrite send_keepalive_bound by exact Hb.
  reflexivity.
Qed.

(** ** [async_connect] *)

Lemma async_connect_unbound s ep h :
  bound s = false ->
  async_connect ep h s = Done tt s [io_post (fail_connect h invalid_argument)].
Proof.
  intro Hb.
  assert (Hm : multiplexer s = None)
    by (unfold bound in Hb; destruct (multiplexer s); [discriminate | reflexivity]).
  unfold async_connect, invoke_handler, cassert, bind, get, emit, ret. simpl.
  rewrite Hm. destruct NDEBUG; reflexivity.
Qed.

Lemma async_connect_refused s ep h :
  bound s = true ->
  state s <> closed ->
  async_connect ep h s
  = Done tt s
      [io_post (fail_connect h
                  match state s with
                  | established => already_connected
                  | _ => already_started
                  end)].
Proof.
  intros Hb Hs. destruct (bound_multiplexer s Hb) as [m Hm].
  unfold async_connect, invoke_handler, cassert, bind, get, emit, ret. simpl.
  rewrite Hm.
  destruct (state s); try (exfalso; apply Hs; reflexivity);
    destruct NDEBUG; reflexivity.
Qed.

Lemma async_connect_closed s ep h :
  bound s = true ->
  state s = closed ->
  async_connect ep h s
  = Done tt
      (set_next_sequence (next (next_sequence s))
         (set_remote (connect_target ep) (set_state connecting s)))
      [mux_add; mux_start_receive;
       tq_push (next_sequence s) 0%nat 1000
         (handshake_step (connect_target ep) (next_sequence s) None)
         (handshake_acked (connect_sent (connect_target ep) h))].
Proof.
  intros Hb Hs. destruct (bound_multiplexer s Hb) as [m Hm].
  destruct s as [mux st rem inq outq ch ns lrs]. simpl in Hm, Hs. subst mux st.
  unfold async_connect, send_handshake, connect_target, cassert.
  destruct ep as [[a | a] p]; simpl; destruct (a =? 0);
    destruct NDEBUG; reflexivity.
Qed.

Lemma connect_target_specified ep :
  is_unspecified (address (connect_target ep)) = false.
Proof.
  unfold connect_target.
  destruct (is_unspecified (address ep)) eqn:E; [| exact E].
  destruct (is_v4 (address ep)); reflexivity.
Qed.

Lemma connect_target_idempotent ep :
  connect_target (connect_target ep) = connect_target ep.
Proof.
  unfold connect_target at 1. now rewrite connect_target_specified.
Qed.

Lemma async_connect_as_target s ep h :
  async_connect ep h s = async_connect (connect_target ep) h s.
Proof.
  destruct (bound s) eqn:Hb.
  - destruct (state s) eqn:Hs;
      try (rewrite !async_connect_refused by (congruence || assumption);
           reflexivity).
    rewrite !async_connect_closed by assumption.
    rewrite connect_target_idempotent. reflexivity.
  - rewrite !async_connect_unbound by assumption. reflexivity.
Qed.

(** C5: [async_connect] on an unbound socket only posts the caller's handler
    with [invalid_argument], touching neither the socket nor the substrate;
    on a bound socket it posts [already_connected] in [established] and
    [already_started] in [listening], [connecting] and [handshaking], again
    leaving the socket alone; in [closed], and only there, it proceeds: the
    state becomes [connecting], the socket registers with the multiplexer,
    and a HANDSHAKE with a fresh sequence and no ack is queued for
    transmission. *)
Theorem async_connect_guards :
  forall s ep h,
    (bound s = false ->
     async_connect ep h s = Done tt s [io_post (fail_connect h invalid_argument)] /\
     forallb (fun e => negb (substrate_activity e))
       [io_post (fail_connect h invalid_argument)] = true) /\
    (bound s = true -> state s = established ->
     async_connect ep h s = Done tt s [io_post (fail_connect h already_connected)]) /\
    (bound s = true -> state s <> closed -> state s <> established ->
     async_connect ep h s = Done tt s [io_post (fail_connect h already_started)]) /\
    (bound s = true -> state s = closed ->
     async_connect ep h s
     = Done tt
         (set_next_sequence (next (next_sequence s))
            (set_remote (connect_target ep) (set_state connecting s)))
         [mux_add; mux_start_receive;
          tq_push (next_sequence s) 0%nat 1000
            (handshake_step (connect_target ep) (next_sequence s) None)
            (handshake_acked (connect_sent (connect_target ep) h))] /\
     forall it s1,
       bound s1 = true ->
       run_send_step (handshake_step (connect_target ep) (next_sequence s) None) it s1
       = Done tt s1
           [mux_send_handshake (connect_target ep) (next_sequence s) None 0
              (iteration_done it)]) /\
    (forall s' out,
        async_connect ep h s = Done tt s' out ->
        s' <> s -> bound s = true /\ state s = closed /\ state s' = connecting).
Proof.
  intros s ep h. repeat split.
  - now apply async_connect_unbound.
  - intros Hb Hs. rewrite async_connect_refused by congruence.
    rewrite Hs. reflexivity.
  - intros Hb Hc He. rewrite async_connect_refused by assumption.
    destruct (state s); try reflexivity; exfalso; auto.
  - now apply async_connect_closed.
  - intros it s1 Hb1. destruct (bound_multiplexer s1 Hb1) as [m Hm].
    unfold run_send_step, deref_multiplexer, bind, get, emit, ret. simpl.
    rewrite Hm. reflexivity.
  - destruct (bound s) eqn:Hb; [reflexivity |].
    rewrite async_connect_unbound in H by exact Hb.
    inversion H; subst. exfalso. auto.
  - destruct (bound s) eqn:Hb.
    + destruct (state s) eqn:Hs; try reflexivity;
        rewrite async_connect_refused in H by congruence;
        inversion H; subst; exfalso; auto.
    + rewrite async_connect_unbound in H by exact Hb.
      inversion H; subst. exfalso. auto.
  - destruct (bound s) eqn:Hb.
    + destruct (state s) eqn:Hs;
        try (rewrite async_connect_refused in H by congruence;
             inversion H; subst; exfalso; auto; fail).
      rewrite async_connect_closed in H by assumption.
      inversion H; subst. reflexivity.
    + rewrite async_connect_unbound in H by exact Hb.
      inversion H; subst. exfalso. auto.
Qed.

(** C9: an unspecified target of [async_connect] is replaced by the loopback
    address of its family, with the port kept, before it is stored, given to
    the multiplexer or captured by a handler: the call does what the same
    call on the loopback endpoint does, and from a bound, closed socket the
    loopback endpoint is what becomes [remote] and what the queued HANDSHAKE
    is addressed to. *)
Theorem async_connect_unspecified_goes_to_loopback :
  forall s ep h,
    is_unspecified (address ep) = true ->
    let target :=
      mk_endpoint (if is_v4 (address ep) then loopback_v4 else loopback_v6)
        (port ep) in
    async_connect ep h s = async_connect target h s /\
    (bound s = true -> state s = closed ->
     exists s',
       async_connect ep h s
       = Done tt s'
           [mux_add; mux_start_receive;
            tq_push (next_sequence s) 0%nat 1000
              (handshake_step target (next_sequence s) None)
              (handshake_acked (connect_sent target h))] /\
       remote s' = target /\ state s' = connecting).
Proof.
  intros s ep h Hu target.
  assert (Ht : connect_target ep = target)
    by (unfold connect_target, with_address; rewrite Hu; reflexivity).
  split.
  - rewrite async_connect_as_target, Ht. reflexivity.
  - intros Hb Hs. eexists. split; [| split].
    + rewrite async_connect_closed by assumption. rewrite Ht. reflexivity.
    + reflexivity.
    + reflexivity.
Qed.

(** ** Copying into the caller's buffers *)

Lemma firstn_add (A : Type) (n m : nat) (l : list A) :
  firstn (n + m) l = firstn n l ++ firstn m (skipn n l).
Proof.
  rewrite <- (firstn_skipn n (firstn (n + m) l)) at 1.
  rewrite firstn_firstn, firstn_skipn_comm.
  replace (Nat.min n (n + m)) with n by lia. reflexivity.
Qed.

Lemma buffer_copy_count (target : buffer_sequence) (source : list byte) :
  snd (buffer_copy target source)
  = Nat.min (buffer_size target) (List.length source).
Proof.
  revert source. induction target as [| b rest IH]; intro source.
  - reflexivity.
  - simpl.
    specialize (IH (skipn (Nat.min (List.length b) (List.length source)) source)).
    destruct (buffer_copy rest _) as [rest' m]. simpl in *.
    rewrite IH, length_skipn.
    change (buffer_size (b :: rest)) with (List.length b + buffer_size rest)%nat.
    lia.
Qed.

Lemma buffer_copy_shape (target : buffer_sequence) (source : list byte) :
  map (@List.length byte) (fst (buffer_copy target source))
  = map (@List.length byte) target.
Proof.
  revert source. induction target as [| b rest IH]; intro source.
  - reflexivity.
  - simpl.
    specialize (IH (skipn (Nat.min (List.length b) (List.length source)) source)).
    destruct (buffer_copy rest _) as [rest' m]. simpl in *.
    rewrite IH. f_equal.
    rewrite length_app, length_firstn, length_skipn. lia.
Qed.

Lemma buffer_copy_contents (target : buffer_sequence) (source : list byte) :
  concat (fst (buffer_copy target source))
  = firstn (buffer_size target) source
      ++ skipn (List.length source) (concat target).
Proof.
  revert source. induction target as [| b rest IH]; intro source.
  - simpl. rewrite skipn_nil. reflexivity.
  - simpl.
    specialize (IH (skipn (Nat.min (List.length b) (List.length source)) source)).
    destruct (buffer_copy rest _) as [rest' m]. simpl in *.
    rewrite IH, length_skipn, skipn_app.
    change (buffer_size (b :: rest)) with (List.length b + buffer_size rest)%nat.
    rewrite firstn_add.
    destruct (Nat.le_gt_cases (List.length b) (List.length source)) as [Hle | Hgt].
    + rewrite Nat.min_l by exact Hle.
      rewrite (skipn_all2 (n := List.length source) b) by exact Hle.
      rewrite skipn_all. rewrite <- !app_assoc. reflexivity.
    + rewrite Nat.min_r by lia.
      rewrite firstn_all, skipn_all, firstn_nil.
      rewrite (firstn_all2 (n := List.length b) source) by lia.
      rewrite (skipn_all2 (n := List.length b) source) by lia.
      rewrite firstn_nil, Nat.sub_diag. simpl.
      replace (List.length source - List.length b)%nat with 0%nat by lia.
      simpl. rewrite app_nil_r, <- app_assoc. reflexivity.
Qed.

Lemma copy_buffers_and_process_receive_ok s payload user_buffers handler :
  copy_buffers_and_process_receive no_error (Some payload) user_buffers handler s
  = Done tt s
      [user_buffers_filled (fst (buffer_copy user_buffers payload));
       io_completed handler no_error (List.length payload)].
Proof. reflexivity. Qed.


(** ** The two invariants *)

(** C7: [receive_input_queue] and [receive_output_queue] are never both
    non-empty: it is so when a socket is constructed and after every
    operation that returns, hence in every reachable socket; [async_receive]
    adds a read only when no payload waits, and [process_data] adds a payload
    only when no read waits. *)
Theorem receive_queues_never_both_nonempty :
  forall mux remote0 random s,
    reachable (new_socket mux remote0 random) s ->
    queues_exclusive s /\
    (forall o s' out, exec o s = Done tt s' out -> queues_exclusive s') /\
    (forall buffers handler s' out,
        async_receive buffers handler s = Done tt s' out ->
        receive_input_queue s' <> receive_input_queue s ->
        receive_output_queue s = []) /\
    (forall error seq size payload s' out,
        process_data error seq size payload s = Done tt s' out ->
        receive_output_queue s' <> receive_output_queue s ->
        receive_input_queue s = []).
Proof.
  intros mux remote0 random s Hr.
  assert (Hex : queues_exclusive s).
  { eapply reachable_queues_exclusive; [| exact Hr]. left. reflexivity. }
  split; [exact Hex | split; [| split]].
  - intros o s' out Hstep.
    eapply queues_exclusive_step; [eapply exec_queues_step |]; eassumption.
  - intros buffers handler s' out H Hne.
    destruct (async_receive_queues _ _ _ _ _ H) as [[Hi _] | [Ho _]];
      [contradiction | exact Ho].
  - intros error seq size payload s' out H Hne.
    destruct (process_data_queues _ _ _ _ _ _ _ H)
      as [[_ Ho] | [[Hi _] | [Ho _]]];
      [contradiction | exact Hi | contradiction].
Qed.

(** C8: [next_sequence] only moves to its modular successor, which is
    strictly after it in the modular order; [send_handshake],
    [send_keepalive] and [send_data] each take the current [next_sequence]
    for their datagram and increment it once; and over any operation the
    sequences handed out are consecutive from the old [next_sequence], which
    ends just past the last of them. *)
Theorem next_sequence_strictly_monotone :
  (forall v, less v (next v) = true /\ next v <> v) /\
  (forall s r a h,
      bound s = true ->
      send_handshake r a h s
      = Done tt (set_next_sequence (next (next_sequence s)) s)
          [mux_start_receive;
           tq_push (next_sequence s) 0%nat 1000
             (handshake_step r (next_sequence s) a) (handshake_acked h)]) /\
  (forall s r a h,
      bound s = true ->
      send_keepalive r a h s
      = Done tt (set_next_sequence (next (next_sequence s)) s)
          [mux_send_keepalive r (next_sequence s) a 0 h]) /\
  (forall s r b h,
      bound s = true ->
      send_data r b h s
      = Done tt (set_next_sequence (next (next_sequence s)) s)
          [mux_start_receive;
           tq_push (next_sequence s) (buffer_size b) 1000
             (data_step b r (next_sequence s)) h]) /\
  (forall o s s' out,
      exec o s = Done tt s' out ->
      exists n : nat,
        allocations out = sequence_run (next_sequence s) n /\
        next_sequence s' = Nat.iter n next (next_sequence s)).
Proof.
  split; [| split; [| split; [| split]]].
  - intro v. split; [apply less_next | apply next_neq].
  - intros. now apply send_handshake_bound.
  - intros. now apply send_keepalive_bound.
  - intros. now apply send_data_bound.
  - intros o s s' out H. exact (advances_exec o s tt s' out H).
Qed.

(** * Beyond the stated claims

    ** Sequencing operations *)

Lemma bind_Done (A B : Type) (m : M A) (k : A -> M B) s a s1 o1 :
  m s = Done a s1 o1 ->
  bind m k s
  = match k a s1 with
    | Done b s2 o2 => Done b s2 (o1 ++ o2)
    | AssertionFailed s2 o2 => AssertionFailed s2 (o1 ++ o2)
    | Undefined => Undefined
    end.
Proof. intro H. unfold bind. rewrite H. reflexivity. Qed.

Lemma unbound_multiplexer (s : socket) :
  bound s = false -> multiplexer s = None.
Proof.
  unfold bound. destruct (multiplexer s); [discriminate | reflexivity].
Qed.

(** ** The public operations on a socket without a multiplexer, and [async_send] *)

Lemma async_receive_unbound s b h :
  bound s = false ->
  async_receive b h s = Done tt s [io_post (fail_io h not_connected 0%nat)].
Proof.
  intro Hb. pose proof (unbound_multiplexer s Hb) as Hm.
  unfold async_receive, invoke_handler_size, cassert, bind, get, emit, ret. simpl.
  rewrite Hm. destruct NDEBUG; reflexivity.
Qed.

Lemma async_send_unbound s b h :
  bound s = false ->
  async_send b h s = Done tt s [io_post (fail_io h not_connected 0%nat)].
Proof.
  intro Hb. pose proof (unbound_multiplexer s Hb) as Hm.
  unfold async_send, invoke_handler_size, cassert, bind, get, emit, ret. simpl.
  rewrite Hm. destruct NDEBUG; reflexivity.
Qed.

Lemma async_send_bound s b h :
  bound s = true ->
  async_send b h s
  = Done tt (set_next_sequence (next (next_sequence s)) s)
      [mux_start_receive;
       tq_push (next_sequence s) (buffer_size b) 1000
         (data_step b (remote s) (next_sequence s)) (send_done h)].
Proof.
  intro Hb. destruct (bound_multiplexer s Hb) as [m Hm].
  unfold async_send, bind at 1, get at 1. simpl. rewrite Hm.
  rewrite send_data_bound by exact Hb. reflexivity.
Qed.

Lemma async_receive_enqueues s b h :
  bound s = true ->
  receive_output_queue s = [] ->
  async_receive b h s
  = Done tt
      (set_receive_input_queue (receive_input_queue s ++ [mk_input b h]) s)
      [mux_start_receive].
Proof.
  intros Hb Ho. destruct (bound_multiplexer s Hb) as [m Hm].
  unfold async_receive, bind, get, modify, emit, ret. simpl.
  rewrite Hm, Ho. reflexivity.
Qed.

Lemma async_receive_posts s b h o rest :
  bound s = true ->
  receive_output_queue s = o :: rest ->
  async_receive b h s = Done tt s [io_post (deliver_output b h)].
Proof.
  intros Hb Ho. destruct (bound_multiplexer s Hb) as [m Hm].
  unfold async_receive, bind, get, modify, emit, ret. simpl.
  rewrite Hm, Ho. reflexivity.
Qed.

Lemma run_task_delivers s b h e p rest :
  receive_output_queue s = mk_output e (Some p) :: rest ->
  run_task (deliver_output b h) s
  = Done tt (set_receive_output_queue rest s)
      ((if is_error e then [] else [user_buffers_filled (fst (buffer_copy b p))])
       ++ [io_completed h e (List.length p)]).
Proof.
  intro Ho.
  unfold run_task, copy_buffers_and_process_receive, process_receive,
    bind, get, modify, emit, ret. simpl.
  rewrite Ho. simpl. destruct e; reflexivity.
Qed.

Lemma run_task_nothing_queued s b h :
  receive_output_queue s = [] ->
  run_task (deliver_output b h) s = Undefined.
Proof.
  intro Ho. unfold run_task, bind, get. simpl. rewrite Ho. reflexivity.
Qed.

(** X1: on a socket that was never bound, [async_receive], [async_send] and
    both overloads of [async_connect] leave the socket as it is and call
    neither the multiplexer, the transmit queue nor the resolver: they only
    post the caller's handler, which then receives [not_connected] with zero
    bytes for the two transfers and [invalid_argument] for the connects. *)
Theorem unbound_socket_only_posts_errors :
  forall s,
    bound s = false ->
    (forall b h,
        async_receive b h s = Done tt s [io_post (fail_io h not_connected 0%nat)] /\
        async_send b h s = Done tt s [io_post (fail_io h not_connected 0%nat)] /\
        run_task (fail_io h not_connected 0%nat) s
        = Done tt s [io_completed h (asio_error not_connected) 0%nat]) /\
    (forall ep host service t,
        async_connect ep (connect_token t) s
        = Done tt s [io_post (fail_connect (connect_token t) invalid_argument)] /\
        async_connect_host host service (connect_token t) s
        = Done tt s [io_post (fail_connect (connect_token t) invalid_argument)] /\
        run_task (fail_connect (connect_token t) invalid_argument) s
        = Done tt s [connect_completed t (asio_error invalid_argument)]).
Proof.
  intros s Hb. split.
  - intros b h. split; [| split].
    + now apply async_receive_unbound.
    + now apply async_send_unbound.
    + reflexivity.
  - intros ep host service t. split; [| split].
    + now apply async_connect_unbound.
    + pose proof (unbound_multiplexer s Hb) as Hm.
      unfold async_connect_host, invoke_handler, cassert, bind, get, emit, ret.
      simpl. rewrite Hm. destruct NDEBUG; reflexivity.
    + reflexivity.
Qed.

(** X2: [async_send] never looks at the connection state: on any bound
    socket, closed or not, it takes the current [next_sequence] for a DATA
    entry of the transmit queue, sized by the total length of the buffers and
    addressed to [remote] as it is at the call, with a timeout of 1000 ms,
    and increments [next_sequence]; the entry's completion hands the error
    and the byte count to the caller's handler. *)
Theorem async_send_queues_in_any_state :
  forall s b h,
    bound s = true ->
    (forall c,
        async_send b h (set_state c s)
        = Done tt (set_next_sequence (next (next_sequence s)) (set_state c s))
            [mux_start_receive;
             tq_push (next_sequence s) (buffer_size b) 1000
               (data_step b (remote s) (next_sequence s)) (send_done h)]) /\
    (forall e n s1,
        invoke_io_handler (send_done h) e n s1 = Done tt s1 [io_completed h e n]).
Proof.
  intros s b h Hb. split.
  - intro c. now rewrite async_send_bound.
  - intros e n s1. reflexivity.
Qed.

(** ** Reads and payloads, in either order *)

(** X3: reads complete oldest first.  On a bound socket with no payload
    waiting, a new read joins the back of [receive_input_queue]; the next
    accepted DATA, handed over with a null payload because the multiplexer
    received into the buffers of the oldest read, removes that oldest read,
    confirms with a KEEPALIVE and completes its handler with the error and
    size announced; the new read completes at once only if none was pending. *)
Theorem reads_complete_oldest_first :
  forall s b h error seq size,
    bound s = true ->
    receive_output_queue s = [] ->
    is_expected_packet s seq = true ->
    (async_receive b h ;; process_data error seq size None) s
    = match receive_input_queue s with
      | [] =>
          Done tt
            (set_next_sequence (next (next_sequence s))
               (set_receive_input_queue []
                  (set_last_remote_sequence (Some seq) s)))
            [mux_start_receive;
             mux_send_keepalive (remote s) (next_sequence s) (Some seq) 0
               keepalive_ignored;
             io_completed h error size]
      | oldest :: rest =>
          Done tt
            (set_next_sequence (next (next_sequence s))
               (set_receive_input_queue (rest ++ [mk_input b h])
                  (set_last_remote_sequence (Some seq) s)))
            [mux_start_receive;
             mux_send_keepalive (remote s) (next_sequence s) (Some seq) 0
               keepalive_ignored;
             io_completed (input_handler oldest) error size]
      end.
Proof.
  intros s b h error seq size Hb Ho He.
  rewrite (bind_Done _ _ _ _ _ _ _ _ (async_receive_enqueues s b h Hb Ho)).
  destruct (receive_input_queue s) as [| oldest rest] eqn:Hq.
  - rewrite (process_data_completes _ error seq size None (mk_input b h) []);
      [reflexivity | exact He | reflexivity | exact Hb | apply orb_true_r].
  - rewrite (process_data_completes _ error seq size None oldest
               (rest ++ [mk_input b h]));
      [reflexivity | exact He | reflexivity | exact Hb | apply orb_true_r].
Qed.

(** X4: payloads are read oldest first, and reading never confirms.  With no
    read pending, an accepted DATA joins the back of [receive_output_queue];
    a later [async_receive] posts its delivery, which takes the oldest queued
    payload, copies it into the caller's buffers unless it was received with
    an error, and completes the caller with that payload's error and size.
    Nothing on this path sends a KEEPALIVE or touches [next_sequence]. *)
Theorem payloads_are_read_oldest_first :
  forall s e p seq b h e0 p0 rest,
    bound s = true ->
    receive_input_queue s = [] ->
    is_expected_packet s seq = true ->
    receive_output_queue s ++ [mk_output e (Some p)]
    = mk_output e0 (Some p0) :: rest ->
    (process_data e seq (List.length p) (Some p) ;;
     async_receive b h ;;
     run_task (deliver_output b h)) s
    = Done tt
        (set_receive_output_queue rest (set_last_remote_sequence (Some seq) s))
        ([io_post (deliver_output b h)]
         ++ (if is_error e0 then []
             else [user_buffers_filled (fst (buffer_copy b p0))])
         ++ [io_completed h e0 (List.length p0)]).
Proof.
  intros s e p seq b h e0 p0 rest Hb Hi He Hq.
  assert (Ha : NDEBUG || payload_has_size (Some p) (List.length p) = true)
    by (simpl; rewrite Nat.eqb_refl; apply orb_true_r).
  rewrite (bind_Done _ _ _ _ _ _ _ _
             (process_data_stores s e seq (List.length p) (Some p) He Hi Ha)).
  set (s1 := set_receive_output_queue
               (receive_output_queue s ++ [mk_output e (Some p)])
               (set_last_remote_sequence (Some seq) s)).
  rewrite (bind_Done _ _ _ _ _ _ _ _
             (async_receive_posts s1 b h (mk_output e0 (Some p0)) rest Hb Hq)).
  rewrite (run_task_delivers s1 b h e0 p0 rest Hq).
  reflexivity.
Qed.

(** X5: two reads started while a single payload waits both post a delivery,
    because the payload is only taken when the posted closure runs; the
    first closure takes the payload and the second calls [front()] on an
    empty queue. *)
Theorem second_delivery_finds_queue_empty :
  forall s e p b1 h1 b2 h2,
    bound s = true ->
    receive_output_queue s = [mk_output e (Some p)] ->
    (async_receive b1 h1 ;; async_receive b2 h2 ;;
     run_task (deliver_output b1 h1) ;; run_task (deliver_output b2 h2)) s
    = Undefined.
Proof.
  intros s e p b1 h1 b2 h2 Hb Ho.
  rewrite (bind_Done _ _ _ _ _ _ _ _ (async_receive_posts s b1 h1 _ _ Hb Ho)).
  rewrite (bind_Done _ _ _ _ _ _ _ _ (async_receive_posts s b2 h2 _ _ Hb Ho)).
  rewrite (bind_Done _ _ _ _ _ _ _ _ (run_task_delivers s b1 h1 e p [] Ho)).
  rewrite run_task_nothing_queued by reflexivity.
  reflexivity.
Qed.

(** X6: a payload that fits is copied whole: the caller's buffers then hold
    the payload followed by what they held beyond its length, their sizes
    are unchanged, and the size reported to the handler is the number of
    bytes copied. *)
Theorem fitting_payload_is_copied_whole :
  forall s p b h,
    (List.length p <= buffer_size b)%nat ->
    copy_buffers_and_process_receive no_error (Some p) b h s
    = Done tt s
        [user_buffers_filled (fst (buffer_copy b p));
         io_completed h no_error (snd (buffer_copy b p))] /\
    concat (fst (buffer_copy b p)) = p ++ skipn (List.length p) (concat b) /\
    map (@List.length byte) (fst (buffer_copy b p)) = map (@List.length byte) b /\
    snd (buffer_copy b p) = List.length p.
Proof.
  intros s p b h Hfit.
  assert (Hn : snd (buffer_copy b p) = List.length p)
    by (rewrite buffer_copy_count; lia).
  split; [| split; [| split]].
  - rewrite Hn. reflexivity.
  - rewrite buffer_copy_contents, firstn_all2 by exact Hfit. reflexivity.
  - apply buffer_copy_shape.
  - exact Hn.
Qed.

(** X7: a payload received with an error is never copied: the caller's
    buffers stay as they are, and its handler gets the error together with
    the size of the payload. *)
Theorem failed_payload_is_not_copied :
  forall s e p b h rest,
    copy_buffers_and_process_receive (asio_error e) (Some p) b h s
    = Done tt s [io_completed h (asio_error e) (List.length p)] /\
    run_task (deliver_output b h)
      (set_receive_output_queue (mk_output (asio_error e) (Some p) :: rest) s)
    = Done tt (set_receive_output_queue rest s)
        [io_completed h (asio_error e) (List.length p)].
Proof.
  intros s e p b h rest. split; reflexivity.
Qed.

Lemma process_data_null_unread s e seq size :
  is_expected_packet s seq = true ->
  receive_input_queue s = [] ->
  process_data e seq size None s
  = if NDEBUG then
      Done tt
        (set_receive_output_queue (receive_output_queue s ++ [mk_output e None])
           (set_last_remote_sequence (Some seq) s))
        []
    else AssertionFailed (set_last_remote_sequence (Some seq) s) [].
Proof.
  intros He Hi.
  unfold process_data, cassert, bind, get, modify, ret. simpl.
  rewrite He, Hi. simpl. destruct NDEBUG; reflexivity.
Qed.

Lemma run_task_null_payload s b h e rest :
  receive_output_queue s = mk_output e None :: rest ->
  run_task (deliver_output b h) s = Undefined.
Proof.
  intro Ho.
  unfold run_task, copy_buffers_and_process_receive, bind, get, modify, ret.
  simpl. rewrite Ho. simpl. destruct e; reflexivity.
Qed.

(** X8: a null payload for a socket with no read pending breaks the contract
    that [process_data] asserts.  With assertions on, the call aborts; with
    assertions compiled out, the null payload is queued like any other, and
    the read that takes it dereferences the null pointer. *)
Theorem null_payload_without_pending_read :
  forall s e seq size b h,
    bound s = true ->
    receive_input_queue s = [] ->
    receive_output_queue s = [] ->
    is_expected_packet s seq = true ->
    (process_data e seq size None ;;
     async_receive b h ;;
     run_task (deliver_output b h)) s
    = if NDEBUG then Undefined
      else AssertionFailed (set_last_remote_sequence (Some seq) s) [].
Proof.
  intros s e seq size b h Hb Hi Ho He.
  unfold bind at 1. rewrite (process_data_null_unread s e seq size He Hi).
  destruct NDEBUG; [| reflexivity].
  cbv beta iota.
  set (s1 := set_receive_output_queue
               (receive_output_queue s ++ [mk_output e None])
               (set_last_remote_sequence (Some seq) s)).
  assert (Hq : receive_output_queue s1 = [mk_output e None])
    by (unfold s1; simpl; rewrite Ho; reflexivity).
  rewrite (bind_Done _ _ _ _ _ _ _ _
             (async_receive_posts s1 b h (mk_output e None) [] Hb Hq)).
  rewrite (run_task_null_payload s1 b h e [] Hq).
  reflexivity.
Qed.

(** X9: [get_recv_buffers] names the read that the next DATA completes.  It
    is null exactly when no read is pending; a new read on a bound socket
    with no payload waiting leaves it on the oldest read, or makes it the new
    read's buffers if none was pending; and an accepted DATA completes the
    handler of the very read whose buffers it returned, after which it
    names the read queued next. *)
Theorem get_recv_buffers_names_next_completed_read :
  forall s,
    (get_recv_buffers s = None <-> receive_input_queue s = []) /\
    (forall b h,
        bound s = true ->
        receive_output_queue s = [] ->
        exists s',
          async_receive b h s = Done tt s' [mux_start_receive] /\
          get_recv_buffers s'
          = Some match get_recv_buffers s with
                 | Some oldest => oldest
                 | None => b
                 end) /\
    (forall bufs e seq size,
        get_recv_buffers s = Some bufs ->
        bound s = true ->
        is_expected_packet s seq = true ->
        exists oldest rest s',
          receive_input_queue s = oldest :: rest /\
          input_buffers oldest = bufs /\
          process_data e seq size None s
          = Done tt s'
              [mux_send_keepalive (remote s) (next_sequence s) (Some seq) 0
                 keepalive_ignored;
               io_completed (input_handler oldest) e size] /\
          get_recv_buffers s' = get_recv_buffers (set_receive_input_queue rest s)).
Proof.
  intro s. split; [| split].
  - unfold get_recv_buffers. destruct (receive_input_queue s); split;
      intro H; (reflexivity || discriminate H).
  - intros b h Hb Ho. eexists. split.
    + now apply async_receive_enqueues.
    + unfold get_recv_buffers. simpl.
      destruct (receive_input_queue s); reflexivity.
  - intros bufs e seq size Hg Hb He.
    unfold get_recv_buffers in Hg.
    destruct (receive_input_queue s) as [| oldest rest] eqn:Hq;
      [discriminate Hg |].
    inversion Hg; subst. exists oldest, rest. eexists.
    split; [reflexivity | split; [reflexivity | split]].
    + apply (process_data_completes s e seq size None oldest rest);
        [exact He | exact Hq | exact Hb | apply orb_true_r].
    + reflexivity.
Qed.

(** ** Handshakes *)

Lemma process_handshake_listening s initial ep :
  state s = listening ->
  bound s = true ->
  process_handshake initial ep s
  = Done tt (set_next_sequence (next (next_sequence s)) s)
      [mux_start_receive;
       tq_push (next_sequence s) 0%nat 1000
         (handshake_step ep (next_sequence s) (Some initial))
         (handshake_acked (handshake_listening ep initial))].
Proof.
  intros Hs Hb.
  unfold process_handshake, bind at 1, get at 1. simpl. rewrite Hs.
  rewrite send_handshake_bound by exact Hb. reflexivity.
Qed.

Lemma process_handshake_asserts s initial ep :
  state s <> listening ->
  state s <> connecting ->
  process_handshake initial ep s
  = if NDEBUG then Done tt s [] else AssertionFailed s [].
Proof.
  intros Hl Hc.
  unfold process_handshake, cassert, bind, get, ret. simpl.
  destruct (state s); try (exfalso; auto; fail); destruct NDEBUG; reflexivity.
Qed.

Lemma invoke_handshake_listening_ok ep initial s :
  invoke_connect_handler (handshake_listening ep initial) no_error s
  = Done tt
      (set_connect_handler None
         (set_remote ep
            (set_last_remote_sequence (Some initial) (set_state established s))))
      match connect_handler s with
      | Some t => [connect_completed t no_error]
      | None => []
      end.
Proof.
  destruct s as [mux st rem inq outq ch ns lrs].
  simpl. unfold bind, get, modify, emit, ret. simpl.
  destruct ch; reflexivity.
Qed.

Lemma process_acknowledgement_established s ack :
  state s = established ->
  process_acknowledgement ack s = Done tt s [tq_apply_ack ack].
Proof.
  intro Hs.
  unfold process_acknowledgement, bind, get, emit, ret. simpl.
  rewrite Hs. reflexivity.
Qed.

Lemma connect_sent_success s r h :
  state s = connecting \/ state s = established ->
  invoke_connect_handler (connect_sent r h) no_error s
  = invoke_connect_handler h no_error s.
Proof.
  intro Hs. simpl. unfold process_connect, bind, get. simpl.
  destruct Hs as [Hs | Hs]; rewrite Hs;
    destruct (invoke_connect_handler h no_error s); reflexivity.
Qed.

(** X10: the listening side of the handshake.  A HANDSHAKE received while
    listening is answered by queueing a HANDSHAKE with a fresh sequence that
    acknowledges the peer's initial sequence; the socket itself changes only
    when that entry completes.  On success it becomes [established], takes
    the peer as [remote] and the peer's initial sequence as
    [last_remote_sequence], so that exactly its successor is the first DATA
    accepted, and the stored connect handler, if any, is called once and
    cleared.  On failure it becomes [closed] and the stored connect handler
    is neither called nor cleared. *)
Theorem listening_handshake_establishes_on_completion :
  forall s initial ep,
    state s = listening ->
    bound s = true ->
    process_handshake initial ep s
    = Done tt (set_next_sequence (next (next_sequence s)) s)
        [mux_start_receive;
         tq_push (next_sequence s) 0%nat 1000
           (handshake_step ep (next_sequence s) (Some initial))
           (handshake_acked (handshake_listening ep initial))] /\
    (forall s1 n,
        exists s2,
          invoke_io_handler (handshake_acked (handshake_listening ep initial))
            no_error n s1
          = Done tt s2
              match connect_handler s1 with
              | Some t => [connect_completed t no_error]
              | None => []
              end /\
          state s2 = established /\ remote s2 = ep /\
          last_remote_sequence s2 = Some initial /\
          connect_handler s2 = None /\
          (forall seq, is_expected_packet s2 seq = (next initial =? seq)) /\
          invoke_io_handler (handshake_acked (handshake_listening ep initial))
            no_error n s2
          = Done tt s2 []) /\
    (forall s1 e n,
        invoke_io_handler (handshake_acked (handshake_listening ep initial))
          (asio_error e) n s1
        = Done tt (set_state closed s1) []).
Proof.
  intros s initial ep Hs Hb. split; [| split].
  - now apply process_handshake_listening.
  - intros s1 n.
    exists (set_connect_handler None
              (set_remote ep
                 (set_last_remote_sequence (Some initial)
                    (set_state established s1)))).
    split; [| split; [reflexivity | split; [reflexivity | split;
      [reflexivity | split; [reflexivity | split]]]]].
    + apply invoke_handshake_listening_ok.
    + intro seq. apply is_expected_packet_after. reflexivity.
    + unfold invoke_io_handler. rewrite invoke_handshake_listening_ok.
      reflexivity.
  - intros s1 e n. reflexivity.
Qed.

(** X11: a HANDSHAKE that arrives again.  While listening, every copy of the
    peer's HANDSHAKE queues one more HANDSHAKE reply, each with a sequence
    of its own.  While connecting, the first copy moves the socket to
    [handshaking] and sends the KEEPALIVE; the second copy then hits
    [assert(false)]: it aborts the process when assertions are on and is
    ignored when they are compiled out. *)
Theorem repeated_handshake :
  forall s initial ep,
    bound s = true ->
    (state s = listening ->
     (process_handshake initial ep ;; process_handshake initial ep) s
     = Done tt (set_next_sequence (next (next (next_sequence s))) s)
         [mux_start_receive;
          tq_push (next_sequence s) 0%nat 1000
            (handshake_step ep (next_sequence s) (Some initial))
            (handshake_acked (handshake_listening ep initial));
          mux_start_receive;
          tq_push (next (next_sequence s)) 0%nat 1000
            (handshake_step ep (next (next_sequence s)) (Some initial))
            (handshake_acked (handshake_listening ep initial))]) /\
    (state s = connecting ->
     (process_handshake initial ep ;; process_handshake initial ep) s
     = let s1 := set_next_sequence (next (next_sequence s))
                   (set_state handshaking s) in
       let sent := [mux_send_keepalive ep (next_sequence s) (Some initial) 0
                      (handshake_connecting ep)] in
       if NDEBUG then Done tt s1 sent else AssertionFailed s1 sent).
Proof.
  intros s initial ep Hb. split; intro Hs.
  - rewrite (bind_Done _ _ _ _ _ _ _ _
               (process_handshake_listening s initial ep Hs Hb)).
    rewrite process_handshake_listening by (exact Hs || exact Hb).
    reflexivity.
  - rewrite (bind_Done _ _ _ _ _ _ _ _
               (process_handshake_connecting s initial ep Hs Hb)).
    rewrite process_handshake_asserts by (simpl; discriminate).
    destruct NDEBUG; reflexivity.
Qed.

(** ** Connecting, from the call to the completion *)

(** X12: a connect that succeeds.  From a bound, closed socket:
    [async_connect] queues the HANDSHAKE; the peer's HANDSHAKE moves the
    socket to [handshaking] and is answered by a KEEPALIVE to its sender;
    the KEEPALIVE's completion makes the socket [established]; and when the
    acknowledged HANDSHAKE entry completes, the caller's handler is called
    with success, once.  Two sequences have been used, [remote] is the
    endpoint connected to, and [last_remote_sequence] is what it was. *)
Theorem connect_succeeds_through_handshake :
  forall s ep t initial from ack n,
    bound s = true ->
    state s = closed ->
    let target := connect_target ep in
    let first := next_sequence s in
    (async_connect ep (connect_token t) ;;
     process_handshake initial from ;;
     invoke_connect_handler (handshake_connecting from) no_error ;;
     process_acknowledgement ack ;;
     invoke_io_handler (handshake_acked (connect_sent target (connect_token t)))
       no_error n) s
    = Done tt
        (set_state established
           (set_next_sequence (next (next first)) (set_remote target s)))
        ([mux_add; mux_start_receive;
          tq_push first 0%nat 1000 (handshake_step target first None)
            (handshake_acked (connect_sent target (connect_token t)));
          mux_send_keepalive from (next first) (Some initial) 0
            (handshake_connecting from)]
         ++ match connect_handler s with
            | Some stored => [connect_completed stored no_error]
            | None => []
            end
         ++ [tq_apply_ack ack; connect_completed t no_error]).
Proof.
  intros s ep t initial from ack n Hb Hs target first.
  rewrite (bind_Done _ _ _ _ _ _ _ _
             (async_connect_closed s ep (connect_token t) Hb Hs)).
  set (s1 := set_next_sequence (next (next_sequence s))
               (set_remote (connect_target ep) (set_state connecting s))).
  rewrite (bind_Done _ _ _ _ _ _ _ _
             (process_handshake_connecting s1 initial from eq_refl Hb)).
  set (s2 := set_next_sequence (next (next_sequence s1))
               (set_state handshaking s1)).
  rewrite (bind_Done _ _ _ _ _ _ _ _
             (invoke_handshake_connecting from no_error s2)).
  set (s3 := set_state (if is_error no_error then closed else established) s2).
  rewrite (bind_Done _ _ _ _ _ _ _ _
             (process_acknowledgement_established s3 ack eq_refl)).
  unfold invoke_io_handler.
  rewrite (connect_sent_success s3 target (connect_token t) (or_intror eq_refl)).
  simpl. destruct (connect_handler s); reflexivity.
Qed.


(** ** Connecting by name *)


(** X14: connecting by name.  On a bound socket [async_connect (host,
    service)] starts the resolution whatever the state, changing nothing.  A
    failed resolution goes straight to the caller's handler.  A successful
    one connects to the first candidate as [async_connect] does, with a
    handler that remembers the candidates; when that HANDSHAKE entry
    completes with success the caller's handler is called with success.  A
    successful resolution with no candidate dereferences the end iterator. *)
Theorem connect_by_name_tries_first_candidate :
  forall s host service t,
    bound s = true ->
    async_connect_host host service (connect_token t) s
    = Done tt s [async_resolve host service (connect_token t)] /\
    (forall e candidates,
        process_resolve (connect_token t) (asio_error e) candidates s
        = Done tt s [connect_completed t (asio_error e)]) /\
    process_resolve (connect_token t) no_error [] s = Undefined /\
    (state s = closed ->
     forall c rest,
       let target := connect_target c in
       let retry := next_connect (c :: rest) (connect_token t) in
       process_resolve (connect_token t) no_error (c :: rest) s
       = Done tt
           (set_next_sequence (next (next_sequence s))
              (set_remote target (set_state connecting s)))
           [mux_add; mux_start_receive;
            tq_push (next_sequence s) 0%nat 1000
              (handshake_step target (next_sequence s) None)
              (handshake_acked (connect_sent target retry))] /\
       forall s1 n,
         state s1 = connecting \/ state s1 = established ->
         invoke_io_handler (handshake_acked (connect_sent target retry))
           no_error n s1
         = Done tt s1 [connect_completed t no_error]).
Proof.
  intros s host service t Hb.
  destruct (bound_multiplexer s Hb) as [m Hm].
  split; [| split; [| split]].
  - unfold async_connect_host, bind, get, emit, ret. simpl.
    rewrite Hm. reflexivity.
  - intros e candidates. reflexivity.
  - reflexivity.
  - intros Hs c rest target retry. split.
    + unfold process_resolve, async_next_connect. simpl.
      now apply async_connect_closed.
    + intros s1 n Hs1. subst target retry. unfold invoke_io_handler.
      rewrite connect_sent_success by exact Hs1.
      simpl. unfold process_next_connect, process_connect, bind, get, emit, ret.
      simpl.
      destruct Hs1 as [Hs1 | Hs1]; rewrite Hs1; reflexivity.
Qed.


(** ** What the transmit queue re-runs *)

Lemma run_send_step_data s b r q it :
  bound s = true ->
  run_send_step (data_step b r q) it s
  = Done tt s [mux_send_data b r q (last_remote_sequence s) 0 (data_sent it)].
Proof.
  intro Hb. destruct (bound_multiplexer s Hb) as [m Hm].
  unfold run_send_step, deref_multiplexer, bind, get, emit, ret. simpl.
  rewrite Hm. reflexivity.
Qed.

(** X16: a retransmission re-sends the entry as queued, with the ack of the
    moment.  Running the [send_step] of a DATA entry leaves the socket as it
    is, so it allocates no sequence: each run gives the multiplexer the same
    buffers, destination and sequence that [async_send] fixed.  Only the ack
    differs: it is [last_remote_sequence] as it stands when the step runs, so
    a run after a DATA was accepted acknowledges that DATA.  The step of a
    HANDSHAKE entry carries the ack it was queued with. *)
Theorem retransmission_resends_entry_with_current_ack :
  forall s b h it e seq p,
    bound s = true ->
    receive_input_queue s = [] ->
    is_expected_packet s seq = true ->
    let step := data_step b (remote s) (next_sequence s) in
    (async_send b h ;;
     run_send_step step it ;;
     process_data e seq (List.length p) (Some p) ;;
     run_send_step step it) s
    = Done tt
        (set_receive_output_queue
           (receive_output_queue s ++ [mk_output e (Some p)])
           (set_last_remote_sequence (Some seq)
              (set_next_sequence (next (next_sequence s)) s)))
        [mux_start_receive;
         tq_push (next_sequence s) (buffer_size b) 1000 step (send_done h);
         mux_send_data b (remote s) (next_sequence s) (last_remote_sequence s) 0
           (data_sent it);
         mux_send_data b (remote s) (next_sequence s) (Some seq) 0
           (data_sent it)] /\
    (forall s1 r q a,
        bound s1 = true ->
        run_send_step (handshake_step r q a) it s1
        = Done tt s1 [mux_send_handshake r q a 0 (iteration_done it)]) /\
    (forall s1 err n,
        invoke_io_handler (data_sent it) err n s1
        = Done tt s1 [iteration_completed it err n] /\
        invoke_connect_handler (iteration_done it) err s1
        = Done tt s1 [iteration_completed it err 0%nat]).
Proof.
  intros s b h it e seq p Hb Hi He step. subst step. split; [| split].
  - rewrite (bind_Done _ _ _ _ _ _ _ _ (async_send_bound s b h Hb)).
    set (s1 := set_next_sequence (next (next_sequence s)) s).
    rewrite (bind_Done _ _ _ _ _ _ _ _
               (run_send_step_data s1 b (remote s) (next_sequence s) it Hb)).
    assert (Ha : NDEBUG || payload_has_size (Some p) (List.length p) = true)
      by (simpl; rewrite Nat.eqb_refl; apply orb_true_r).
    rewrite (bind_Done _ _ _ _ _ _ _ _
               (process_data_stores s1 e seq (List.length p) (Some p) He Hi Ha)).
    rewrite run_send_step_data by exact Hb.
    reflexivity.
  - intros s1 r q a Hb1. destruct (bound_multiplexer s1 Hb1) as [m Hm].
    unfold run_send_step, deref_multiplexer, bind, get, emit, ret. simpl.
    rewrite Hm. reflexivity.
  - intros s1 err n. split; reflexivity.
Qed.

End Engine.

(** * Examples on a 32-bit sequence space

    The statements above at concrete sockets, with [W = 32] and, unless said
    otherwise, assertions enabled. *)

Lemma process_data_drops_out_of_order_witness :
  0 < 32 /\
  last_remote_sequence synced_socket = Some 41 /\
  43 <> next 32 41 /\
  process_data 32 false no_error 43 5%nat (Some hello) synced_socket
  = Done tt synced_socket [] /\
  process_data 32 false no_error 41 5%nat (Some hello) synced_socket
  = Done tt synced_socket [].
Proof.
  assert (Hw : 0 < 32) by lia.
  assert (Hl : last_remote_sequence synced_socket = Some 41) by reflexivity.
  assert (Hn : 43 <> next 32 41) by (vm_compute; discriminate).
  destruct (process_data_drops_out_of_order 32 false Hw synced_socket
              no_error 43 5%nat (Some hello) 41 Hl) as [Hfar Hdup].
  split; [exact Hw |].
  split; [exact Hl | split; [exact Hn | split; [exact (Hfar Hn) | exact Hdup]]].
Defined.

Lemma first_data_sets_baseline_witness :
  last_remote_sequence idle_socket = None /\
  bound idle_socket = true /\
  false || data_asserts_hold idle_socket (Some hello) 5 = true /\
  is_expected_packet 32 idle_socket 999 = true /\
  exists s' out,
    process_data 32 false no_error 999 5%nat (Some hello) idle_socket
    = Done tt s' out /\
    last_remote_sequence s' = Some 999 /\
    forall seq', is_expected_packet 32 s' seq' = (next 32 999 =? seq').
Proof.
  assert (Hl : last_remote_sequence idle_socket = None) by reflexivity.
  assert (Hb : bound idle_socket = true) by reflexivity.
  assert (Ha : false || data_asserts_hold idle_socket (Some hello) 5 = true)
    by reflexivity.
  destruct (first_data_sets_baseline 32 false idle_socket Hl) as [Hany Hfirst].
  split; [exact Hl | split; [exact Hb | split; [exact Ha | split]]].
  - exact (Hany 999).
  - exact (Hfirst no_error 999 5%nat (Some hello) Hb Ha).
Defined.

Lemma process_data_accepts_in_order_witness :
  is_expected_packet 32 reading_socket 5 = true /\
  bound reading_socket = true /\
  false || data_asserts_hold reading_socket None 2 = true /\
  process_data 32 false no_error 5 2%nat None reading_socket
  = Done tt
      (set_next_sequence (next 32 10)
         (set_receive_input_queue []
            (set_last_remote_sequence (Some 5) reading_socket)))
      [mux_send_keepalive peer 10 (Some 5) 0 keepalive_ignored;
       io_completed 7%nat no_error 2].
Proof.
  split; [reflexivity | split; [reflexivity | split; [reflexivity |]]].
  exact (process_data_accepts_in_order 32 false reading_socket no_error 5 2%nat
           None eq_refl eq_refl eq_refl).
Defined.

(** A datagram accepted while no read is pending is queued and not
    confirmed: no KEEPALIVE leaves the socket. *)
Lemma queued_data_is_not_confirmed :
  ~ accepted_data_is_confirmed 32 false idle_socket no_error 5 5%nat (Some hello).
Proof.
  intro H.
  destruct (H eq_refl) as [s' [out [Hrun [_ [Hka _]]]]].
  rewrite process_data_stores in Hrun by reflexivity.
  inversion Hrun; subst.
  destruct Hka as [r [sq [rs [h Hin]]]]. exact Hin.
Qed.

(** C2: at a bound socket with no read pending, the in-order DATA with
    sequence 5 is accepted and its payload queued, and no KEEPALIVE confirms
    it: not when it is queued, not when the peer retransmits it (the copy is
    dropped by the filter), and not when a later read takes the payload;
    [next_sequence] is 10 throughout.  On the sibling branch, with a read
    pending, the same datagram is confirmed by KEEPALIVE (10, ack 5). *)
Theorem queued_data_is_never_confirmed :
  let queued :=
    set_receive_output_queue [mk_output no_error (Some hello)]
      (set_last_remote_sequence (Some 5) idle_socket) in
  process_data 32 false no_error 5 5%nat (Some hello) idle_socket
  = Done tt queued [] /\
  ~ accepted_data_is_confirmed 32 false idle_socket no_error 5 5%nat (Some hello) /\
  process_data 32 false no_error 5 5%nat (Some hello) queued
  = Done tt queued [] /\
  (async_receive false two_bytes 9%nat ;;
   run_task 32 false (deliver_output two_bytes 9%nat)) queued
  = Done tt (set_receive_output_queue [] queued)
      [io_post (deliver_output two_bytes 9%nat);
       user_buffers_filled [[x68; x65]];
       io_completed 9%nat no_error 5%nat] /\
  next_sequence (set_receive_output_queue [] queued) = 10 /\
  process_data 32 false no_error 5 2%nat None reading_socket
  = Done tt
      (set_next_sequence 11
         (set_receive_input_queue []
            (set_last_remote_sequence (Some 5) reading_socket)))
      [mux_send_keepalive peer 10 (Some 5) 0 keepalive_ignored;
       io_completed 7%nat no_error 2%nat].
Proof.
  intro queued.
  assert (Hrun : process_data 32 false no_error 5 5%nat (Some hello) idle_socket
                 = Done tt queued [])
    by reflexivity.
  split; [exact Hrun | split; [| split; [| split; [| split]]]].
  - intro H.
    destruct (H eq_refl) as [s' [out [Hrun' [_ [Hka _]]]]].
    rewrite Hrun in Hrun'. inversion Hrun'; subst.
    destruct Hka as [r [sq [rs [h Hin]]]]. exact Hin.
  - apply process_data_unexpected. reflexivity.
  - rewrite (bind_Done _ _ _ _ _ _ _ _
               (async_receive_posts false queued two_bytes 9%nat
                  (mk_output no_error (Some hello)) [] eq_refl eq_refl)).
    rewrite (run_task_delivers 32 false queued two_bytes 9%nat no_error hello []
               eq_refl).
    reflexivity.
  - reflexivity.
  - apply (process_data_completes 32 false reading_socket no_error 5 2%nat None
             (mk_input two_bytes 7%nat) []); reflexivity.
Qed.

(** A listening socket applies the ack; a closed one aborts when assertions
    are on, and applies the ack when they are off. *)
Lemma acknowledgement_not_ignored_elsewhere :
  ~ acknowledgement_ignored_elsewhere false listening_socket 7 /\
  ~ acknowledgement_ignored_elsewhere false idle_socket 7 /\
  ~ acknowledgement_ignored_elsewhere true idle_socket 7.
Proof.
  split; [| split]; intro H;
    assert (Hrun := H ltac:(discriminate) ltac:(discriminate));
    vm_compute in Hrun; discriminate Hrun.
Qed.

(** C4: at a connecting socket that receives [HANDSHAKE] with initial
    sequence 77, [process_handshake] moves to [handshaking] and sends the
    KEEPALIVE acknowledging 77 with a fresh sequence, and its completion
    settles the state and fires the stored connect handler; but
    [last_remote_sequence] is left unset, unlike on the listening path,
    whose completion records the initial sequence. *)
Theorem process_handshake_connecting_forgets_initial :
  process_handshake 32 false 77 peer connecting_socket
  = Done tt (set_next_sequence 11 (set_state handshaking connecting_socket))
      [mux_send_keepalive peer 10 (Some 77) 0 (handshake_connecting peer)] /\
  last_remote_sequence
    (set_next_sequence 11 (set_state handshaking connecting_socket)) = None /\
  ~ handshake_records_initial 32 false connecting_socket 77 peer /\
  (forall s error,
      invoke_connect_handler 32 false (handshake_connecting peer) error s
      = Done tt (set_state (if is_error error then closed else established) s)
          match connect_handler s with
          | Some t => [connect_completed t error]
          | None => []
          end) /\
  (forall s,
      exists s',
        invoke_connect_handler 32 false (handshake_listening peer 77) no_error s
        = Done tt s'
            match connect_handler s with
            | Some t => [connect_completed t no_error]
            | None => []
            end /\
        state s' = established /\
        last_remote_sequence s' = Some 77).
Proof.
  assert (Hrun : process_handshake 32 false 77 peer connecting_socket
                 = Done tt
                     (set_next_sequence 11
                        (set_state handshaking connecting_socket))
                     [mux_send_keepalive peer 10 (Some 77) 0
                        (handshake_connecting peer)]).
  { rewrite process_handshake_connecting by reflexivity. reflexivity. }
  split; [exact Hrun | split; [reflexivity | split; [| split]]].
  - intro H. destruct (H eq_refl) as [s' [out [Hrun' [_ Hl]]]].
    rewrite Hrun in Hrun'. inversion Hrun'; subst. discriminate Hl.
  - intros s error. apply invoke_handshake_connecting.
  - intro s. simpl. unfold bind, get, modify, emit, ret. simpl.
    destruct (connect_handler s); eexists; repeat split.
Qed.

Lemma async_connect_guards_witness :
  (bound unbound_socket = false /\
   async_connect 32 false wildcard_v4 (connect_token 1%nat) unbound_socket
   = Done tt unbound_socket
       [io_post (fail_connect (connect_token 1%nat) invalid_argument)]) /\
  (bound synced_socket = true /\ state synced_socket = established /\
   async_connect 32 false peer (connect_token 1%nat) synced_socket
   = Done tt synced_socket
       [io_post (fail_connect (connect_token 1%nat) already_connected)]) /\
  (bound listening_socket = true /\ state listening_socket <> closed /\
   state listening_socket <> established /\
   async_connect 32 false peer (connect_token 1%nat) listening_socket
   = Done tt listening_socket
       [io_post (fail_connect (connect_token 1%nat) already_started)]) /\
  (bound idle_socket = true /\ state idle_socket = closed /\
   async_connect 32 false peer (connect_token 1%nat) idle_socket
   = Done tt
       (set_next_sequence 11 (set_remote peer (set_state connecting idle_socket)))
       [mux_add; mux_start_receive;
        tq_push 10 0%nat 1000 (handshake_step peer 10 None)
          (handshake_acked (connect_sent peer (connect_token 1%nat)))]).
Proof.
  assert (Hl1 : state listening_socket <> closed) by discriminate.
  assert (Hl2 : state listening_socket <> established) by discriminate.
  split; [| split; [| split]].
  - destruct (async_connect_guards 32 false unbound_socket wildcard_v4
                (connect_token 1%nat)) as [H _].
    split; [reflexivity | exact (proj1 (H eq_refl))].
  - destruct (async_connect_guards 32 false synced_socket peer
                (connect_token 1%nat)) as [_ [H _]].
    split; [reflexivity | split; [reflexivity | exact (H eq_refl eq_refl)]].
  - destruct (async_connect_guards 32 false listening_socket peer
                (connect_token 1%nat)) as [_ [_ [H _]]].
    split; [reflexivity | split; [exact Hl1 | split; [exact Hl2 |]]].
    exact (H eq_refl Hl1 Hl2).
  - destruct (async_connect_guards 32 false idle_socket peer
                (connect_token 1%nat)) as [_ [_ [_ [H _]]]].
    split; [reflexivity | split; [reflexivity |]].
    exact (proj1 (H eq_refl eq_refl)).
Defined.

Lemma async_connect_unspecified_goes_to_loopback_witness :
  is_unspecified (address wildcard_v4) = true /\
  bound idle_socket = true /\ state idle_socket = closed /\
  async_connect 32 false wildcard_v4 (connect_token 1%nat) idle_socket
  = async_connect 32 false (mk_endpoint loopback_v4 4000) (connect_token 1%nat)
      idle_socket /\
  exists s',
    async_connect 32 false wildcard_v4 (connect_token 1%nat) idle_socket
    = Done tt s'
        [mux_add; mux_start_receive;
         tq_push 10 0%nat 1000
           (handshake_step (mk_endpoint loopback_v4 4000) 10 None)
           (handshake_acked
              (connect_sent (mk_endpoint loopback_v4 4000) (connect_token 1%nat)))] /\
    remote s' = mk_endpoint loopback_v4 4000 /\ state s' = connecting.
Proof.
  destruct (async_connect_unspecified_goes_to_loopback 32 false idle_socket
              wildcard_v4 (connect_token 1%nat) eq_refl) as [Hsame Hrun].
  split; [reflexivity | split; [reflexivity | split; [reflexivity | split]]].
  - exact Hsame.
  - exact (Hrun eq_refl eq_refl).
Defined.



Lemma receive_queues_never_both_nonempty_witness :
  reachable 32 false (new_socket (Some 0%nat) peer 10) reading_socket /\
  queues_exclusive reading_socket.
Proof.
  assert (Hr : reachable 32 false (new_socket (Some 0%nat) peer 10) reading_socket).
  { apply (reachable_step 32 false _ idle_socket reading_socket
             (op_async_receive two_bytes 7%nat) [mux_start_receive]).
    - apply reachable_start.
    - reflexivity. }
  split; [exact Hr |].
  exact (proj1 (receive_queues_never_both_nonempty 32 false (Some 0%nat) peer 10
                  reading_socket Hr)).
Defined.

Lemma next_sequence_strictly_monotone_witness :
  0 < 32 /\
  less 32 4294967295 (next 32 4294967295) = true /\
  next 32 4294967295 <> 4294967295.
Proof.
  assert (Hw : 0 < 32) by lia.
  split; [exact Hw |].
  exact (proj1 (next_sequence_strictly_monotone 32 false Hw) 4294967295).
Defined.

(** * Examples for the properties beyond the claims *)

Lemma unbound_socket_only_posts_errors_witness :
  bound unbound_socket = false /\
  async_receive false two_bytes 7%nat unbound_socket
  = Done tt unbound_socket [io_post (fail_io 7%nat not_connected 0%nat)] /\
  async_send 32 false [hello] 7%nat unbound_socket
  = Done tt unbound_socket [io_post (fail_io 7%nat not_connected 0%nat)].
Proof.
  destruct (unbound_socket_only_posts_errors 32 false unbound_socket eq_refl)
    as [Hio _].
  destruct (Hio two_bytes 7%nat) as [Hr [_ _]].
  destruct (Hio [hello] 7%nat) as [_ [Hs _]].
  split; [reflexivity | split; [exact Hr | exact Hs]].
Defined.

Lemma async_send_queues_in_any_state_witness :
  bound idle_socket = true /\
  async_send 32 false [hello] 3%nat (set_state closed idle_socket)
  = Done tt (set_next_sequence 11 (set_state closed idle_socket))
      [mux_start_receive;
       tq_push 10 5%nat 1000 (data_step [hello] peer 10) (send_done 3%nat)].
Proof.
  split; [reflexivity |].
  exact (proj1 (async_send_queues_in_any_state 32 false idle_socket [hello]
                  3%nat eq_refl) closed).
Defined.

Lemma reads_complete_oldest_first_witness :
  bound reading_socket = true /\
  receive_output_queue reading_socket = [] /\
  is_expected_packet 32 reading_socket 5 = true /\
  (async_receive false eight_bytes 8%nat ;;
   process_data 32 false no_error 5 2%nat None) reading_socket
  = Done tt
      (set_next_sequence 11
         (set_receive_input_queue [mk_input eight_bytes 8%nat]
            (set_last_remote_sequence (Some 5) reading_socket)))
      [mux_start_receive;
       mux_send_keepalive peer 10 (Some 5) 0 keepalive_ignored;
       io_completed 7%nat no_error 2%nat].
Proof.
  split; [reflexivity | split; [reflexivity | split; [reflexivity |]]].
  exact (reads_complete_oldest_first 32 false reading_socket eight_bytes 8%nat
           no_error 5 2%nat eq_refl eq_refl eq_refl).
Defined.

Lemma payloads_are_read_oldest_first_witness :
  bound queued_socket = true /\
  receive_input_queue queued_socket = [] /\
  is_expected_packet 32 queued_socket 42 = true /\
  receive_output_queue queued_socket ++ [mk_output no_error (Some [x01])]
  = mk_output no_error (Some hello) :: [mk_output no_error (Some [x01])] /\
  (process_data 32 false no_error 42 1%nat (Some [x01]) ;;
   async_receive false two_bytes 9%nat ;;
   run_task 32 false (deliver_output two_bytes 9%nat)) queued_socket
  = Done tt
      (set_receive_output_queue [mk_output no_error (Some [x01])]
         (set_last_remote_sequence (Some 42) queued_socket))
      [io_post (deliver_output two_bytes 9%nat);
       user_buffers_filled [[x68; x65]];
       io_completed 9%nat no_error 5%nat].
Proof.
  split; [reflexivity | split; [reflexivity | split; [reflexivity |
    split; [reflexivity |]]]].
  exact (payloads_are_read_oldest_first 32 false queued_socket no_error [x01] 42
           two_bytes 9%nat no_error hello [mk_output no_error (Some [x01])]
           eq_refl eq_refl eq_refl eq_refl).
Defined.

Lemma second_delivery_finds_queue_empty_witness :
  bound queued_socket = true /\
  receive_output_queue queued_socket = [mk_output no_error (Some hello)] /\
  (async_receive false two_bytes 8%nat ;; async_receive false two_bytes 9%nat ;;
   run_task 32 false (deliver_output two_bytes 8%nat) ;;
   run_task 32 false (deliver_output two_bytes 9%nat)) queued_socket
  = Undefined.
Proof.
  split; [reflexivity | split; [reflexivity |]].
  exact (second_delivery_finds_queue_empty 32 false queued_socket no_error hello
           two_bytes 8%nat two_bytes 9%nat eq_refl eq_refl).
Defined.

Lemma fitting_payload_is_copied_whole_witness :
  (List.length hello <= buffer_size eight_bytes)%nat /\
  concat (fst (buffer_copy eight_bytes hello)) = hello ++ [x00; x00; x00] /\
  snd (buffer_copy eight_bytes hello) = 5%nat.
Proof.
  assert (Hfit : (List.length hello <= buffer_size eight_bytes)%nat)
    by (vm_compute; lia).
  destruct (fitting_payload_is_copied_whole idle_socket hello eight_bytes 9%nat
              Hfit) as [_ [Hcontents [_ Hcount]]].
  split; [exact Hfit | split; [exact Hcontents | exact Hcount]].
Defined.

Lemma null_payload_without_pending_read_witness :
  bound idle_socket = true /\
  receive_input_queue idle_socket = [] /\
  receive_output_queue idle_socket = [] /\
  is_expected_packet 32 idle_socket 5 = true /\
  (process_data 32 true no_error 5 0%nat None ;;
   async_receive true two_bytes 9%nat ;;
   run_task 32 true (deliver_output two_bytes 9%nat)) idle_socket
  = Undefined /\
  (process_data 32 false no_error 5 0%nat None ;;
   async_receive false two_bytes 9%nat ;;
   run_task 32 false (deliver_output two_bytes 9%nat)) idle_socket
  = AssertionFailed (set_last_remote_sequence (Some 5) idle_socket) [].
Proof.
  split; [reflexivity | split; [reflexivity | split; [reflexivity |
    split; [reflexivity | split]]]].
  - exact (null_payload_without_pending_read 32 true idle_socket no_error 5
             0%nat two_bytes 9%nat eq_refl eq_refl eq_refl eq_refl).
  - exact (null_payload_without_pending_read 32 false idle_socket no_error 5
             0%nat two_bytes 9%nat eq_refl eq_refl eq_refl eq_refl).
Defined.

Lemma get_recv_buffers_names_next_completed_read_witness :
  get_recv_buffers reading_socket = Some two_bytes /\
  bound reading_socket = true /\
  is_expected_packet 32 reading_socket 5 = true /\
  exists oldest rest s',
    receive_input_queue reading_socket = oldest :: rest /\
    input_buffers oldest = two_bytes /\
    process_data 32 false no_error 5 2%nat None reading_socket
    = Done tt s'
        [mux_send_keepalive peer 10 (Some 5) 0 keepalive_ignored;
         io_completed (input_handler oldest) no_error 2%nat] /\
    get_recv_buffers s'
    = get_recv_buffers (set_receive_input_queue rest reading_socket).
Proof.
  destruct (get_recv_buffers_names_next_completed_read 32 false reading_socket)
    as [_ [_ Hdata]].
  split; [reflexivity | split; [reflexivity | split; [reflexivity |]]].
  exact (Hdata two_bytes no_error 5 2%nat eq_refl eq_refl eq_refl).
Defined.

Lemma listening_handshake_establishes_on_completion_witness :
  state listening_socket = listening /\
  bound listening_socket = true /\
  process_handshake 32 false 77 peer listening_socket
  = Done tt (set_next_sequence 11 listening_socket)
      [mux_start_receive;
       tq_push 10 0%nat 1000 (handshake_step peer 10 (Some 77))
         (handshake_acked (handshake_listening peer 77))].
Proof.
  split; [reflexivity | split; [reflexivity |]].
  exact (proj1 (listening_handshake_establishes_on_completion 32 false
                  listening_socket 77 peer eq_refl eq_refl)).
Defined.

Lemma repeated_handshake_witness :
  bound connecting_socket = true /\
  state connecting_socket = connecting /\
  (process_handshake 32 false 77 peer ;; process_handshake 32 false 77 peer)
    connecting_socket
  = AssertionFailed
      (set_next_sequence 11 (set_state handshaking connecting_socket))
      [mux_send_keepalive peer 10 (Some 77) 0 (handshake_connecting peer)].
Proof.
  split; [reflexivity | split; [reflexivity |]].
  exact (proj2 (repeated_handshake 32 false connecting_socket 77 peer eq_refl)
           eq_refl).
Defined.

Lemma connect_succeeds_through_handshake_witness :
  bound idle_socket = true /\
  state idle_socket = closed /\
  (async_connect 32 false wildcard_v4 (connect_token 1%nat) ;;
   process_handshake 32 false 77 peer ;;
   invoke_connect_handler 32 false (handshake_connecting peer) no_error ;;
   process_acknowledgement false 10 ;;
   invoke_io_handler 32 false
     (handshake_acked
        (connect_sent (mk_endpoint loopback_v4 4000) (connect_token 1%nat)))
     no_error 0%nat) idle_socket
  = Done tt
      (set_state established
         (set_next_sequence 12
            (set_remote (mk_endpoint loopback_v4 4000) idle_socket)))
      [mux_add; mux_start_receive;
       tq_push 10 0%nat 1000
         (handshake_step (mk_endpoint loopback_v4 4000) 10 None)
         (handshake_acked
            (connect_sent (mk_endpoint loopback_v4 4000) (connect_token 1%nat)));
       mux_send_keepalive peer 11 (Some 77) 0 (handshake_connecting peer);
       tq_apply_ack 10;
       connect_completed 1%nat no_error].
Proof.
  split; [reflexivity | split; [reflexivity |]].
  exact (connect_succeeds_through_handshake 32 false idle_socket wildcard_v4
           1%nat 77 peer 10 0%nat eq_refl eq_refl).
Defined.


Lemma connect_by_name_tries_first_candidate_witness :
  bound idle_socket = true /\
  state idle_socket = closed /\
  async_connect_host false "localhost" "4000" (connect_token 1%nat) idle_socket
  = Done tt idle_socket
      [async_resolve "localhost" "4000" (connect_token 1%nat)] /\
  process_resolve 32 false (connect_token 1%nat) no_error [wildcard_v6; peer]
    idle_socket
  = Done tt
      (set_next_sequence 11
         (set_remote (mk_endpoint loopback_v6 4000)
            (set_state connecting idle_socket)))
      [mux_add; mux_start_receive;
       tq_push 10 0%nat 1000
         (handshake_step (mk_endpoint loopback_v6 4000) 10 None)
         (handshake_acked
            (connect_sent (mk_endpoint loopback_v6 4000)
               (next_connect [wildcard_v6; peer] (connect_token 1%nat))))].
Proof.
  destruct (connect_by_name_tries_first_candidate 32 false idle_socket
              "localhost" "4000" 1%nat eq_refl) as [Hstart [_ [_ Hfirst]]].
  split; [reflexivity | split; [reflexivity | split; [exact Hstart |]]].
  exact (proj1 (Hfirst eq_refl wildcard_v6 [peer])).
Defined.


Lemma retransmission_resends_entry_with_current_ack_witness :
  bound synced_socket = true /\
  receive_input_queue synced_socket = [] /\
  is_expected_packet 32 synced_socket 42 = true /\
  (async_send 32 false [hello] 3%nat ;;
   run_send_step (data_step [hello] peer 10) 6%nat ;;
   process_data 32 false no_error 42 1%nat (Some [x01]) ;;
   run_send_step (data_step [hello] peer 10) 6%nat) synced_socket
  = Done tt
      (set_receive_output_queue [mk_output no_error (Some [x01])]
         (set_last_remote_sequence (Some 42)
            (set_next_sequence 11 synced_socket)))
      [mux_start_receive;
       tq_push 10 5%nat 1000 (data_step [hello] peer 10) (send_done 3%nat);
       mux_send_data [hello] peer 10 (Some 41) 0 (data_sent 6%nat);
       mux_send_data [hello] peer 10 (Some 42) 0 (data_sent 6%nat)].
Proof.
  split; [reflexivity | split; [reflexivity | split; [reflexivity |]]].
  exact (proj1 (retransmission_resends_entry_with_current_ack 32 false
                  synced_socket [hello] 3%nat 6%nat no_error 42 [x01]
                  eq_refl eq_refl eq_refl)).
Defined.
